(** * Shallow embedding of the similarity core of mlb-player-comparisons

    Modelled files: [src/similarity/normalizer.py], [src/similarity/distance.py],
    [src/similarity/engine.py], [src/similarity/pitch_engine.py] and the
    constants of [src/metrics/*definitions.py].

    Numbers: a pandas float cell is [value := option R]; [None] stands for a
    missing cell (NaN).  Arithmetic is over the reals.  A pandas table is a
    [table]: its column list and its rows, each row carrying its identity and
    an association list from column name to cell. *)

From Stdlib Require Import Reals Psatz List String Ascii Bool ZArith Sorted Permutation.
From Stdlib Require OrderedTypeEx.
Import ListNotations.
Open Scope R_scope.

(* ------------------------------------------------------------------ *)
(** ** Python-level plumbing: exceptions, dicts, strings *)

Inductive exn :=
| ValueError (msg : string)
| KeyError (key : string).

Inductive result (A : Type) :=
| Ok (a : A)
| Err (e : exn).
Arguments Ok {A} a.
Arguments Err {A} e.

Definition bind {A B} (m : result A) (k : A -> result B) : result B :=
  match m with Ok a => k a | Err e => Err e end.

Notation "'let!' x := m 'in' k" := (bind m (fun x => k))
  (at level 200, x name, m at level 100, k at level 200).

(** A Python dict with string keys, in insertion order. *)
Fixpoint assoc {A} (k : string) (l : list (string * A)) : option A :=
  match l with
  | [] => None
  | (k', v) :: t => if String.eqb k k' then Some v else assoc k t
  end.

(** [d[k] = v]: overwrite in place when present, append otherwise. *)
Fixpoint dict_set {A} (k : string) (v : A) (l : list (string * A)) : list (string * A) :=
  match l with
  | [] => [(k, v)]
  | (k', v') :: t => if String.eqb k k' then (k, v) :: t else (k', v') :: dict_set k v t
  end.

(** [x in xs] for a list of strings. *)
Definition mem (x : string) (xs : list string) : bool := existsb (String.eqb x) xs.

(** [f"{m}_z"] *)
Definition zcol (m : string) : string := (m ++ "_z")%string.

(** [s.replace("_z", "")]: every non-overlapping occurrence, left to right. *)
Fixpoint replace_underscore_z (s : string) : string :=
  match s with
  | EmptyString => EmptyString
  | String c rest =>
      if Ascii.eqb c "_"%char then
        match rest with
        | String d t =>
            if Ascii.eqb d "z"%char then replace_underscore_z t
            else String c (replace_underscore_z rest)
        | EmptyString => String c EmptyString
        end
      else String c (replace_underscore_z rest)
  end.

(* ------------------------------------------------------------------ *)
(** ** Tables *)

(** A nullable float cell: [None] is NaN / missing. *)
Definition value := option R.

Record row := mkRow {
  mlbam_id : Z;
  season : Z;
  strs : list (string * string);     (* string-valued columns: names, pitch_type *)
  fields : list (string * value)      (* numeric columns *)
}.

Record table := mkTable {
  tcols : list string;
  trows : list row
}.

(** [row.get(c)] followed by [pd.isna]: an absent column reads as missing. *)
Definition cell (r : row) (c : string) : value :=
  match assoc c (fields r) with Some v => v | None => None end.

Definition row_set (c : string) (v : value) (r : row) : row :=
  mkRow (mlbam_id r) (season r) (strs r) (dict_set c v (fields r)).

(** [df[c]] *)
Definition column (df : table) (c : string) : list value := map (fun r => cell r c) (trows df).

(** [series.dropna()] *)
Fixpoint dropna (vs : list value) : list R :=
  match vs with
  | [] => []
  | Some x :: t => x :: dropna t
  | None :: t => dropna t
  end.

(** [result[name] = vals]: a new column is appended, an existing one overwritten. *)
Definition set_column (df : table) (name : string) (vals : list value) : table :=
  mkTable (if mem name (tcols df) then tcols df else tcols df ++ [name])
          (map (fun '(r, v) => row_set name v r) (combine (trows df) vals)).

Definition filter_rows (p : row -> bool) (df : table) : table :=
  mkTable (tcols df) (filter p (trows df)).

Definition sumR (xs : list R) : R := fold_right Rplus 0 xs.

(** [Series.mean()]: NaN on an empty series. *)
Definition pd_mean (xs : list R) : value :=
  match xs with
  | [] => None
  | _ => Some (sumR xs / INR (List.length xs))
  end.

(** [Series.std()] (sample standard deviation, ddof = 1): NaN below two values. *)
Definition pd_std (xs : list R) : value :=
  if (List.length xs <? 2)%nat then None
  else
    let m := sumR xs / INR (List.length xs) in
    Some (sqrt (sumR (map (fun x => (x - m) ^ 2) xs) / INR (List.length xs - 1))).

(* ------------------------------------------------------------------ *)
(** ** MetricNormalizer (normalizer.py) *)

Module Normalizer.

Record t := mk {
  means : list (string * value);
  stds : list (string * value);
  fitted : bool
}.

Definition init : t := mk [] [] false.

(** [if self._stds[col] == 0: self._stds[col] = 1.0]; NaN compares unequal. *)
Definition floor_std (sd : value) : value :=
  match sd with
  | Some s => if Req_dec_T s 0 then Some 1 else sd
  | None => sd
  end.

(** One iteration of the loop of [fit]. *)
Definition fit_col (df : table) (n : t) (col : string) : t :=
  if mem col (tcols df) then
    let col_data := dropna (column df col) in
    mk (dict_set col (pd_mean col_data) (means n))
       (dict_set col (floor_std (pd_std col_data)) (stds n)) (fitted n)
  else n.

Definition fit (n : t) (df : table) (columns : list string) : t :=
  let n' := fold_left (fit_col df) columns n in
  mk (means n') (stds n') true.

(** [(x - mean) / std]; NaN propagates.  The divisor is never 0 once fitted
    (see [floor_std_nonzero]). *)
Definition zscore (mu sd v : value) : value :=
  match v, mu, sd with
  | Some x, Some m, Some s => Some ((x - m) / s)
  | _, _, _ => None
  end.

Definition transform_col (n : t) (df : table) (res : table) (col : string) : table :=
  if mem col (tcols df) && mem col (map fst (means n)) then
    match assoc col (means n), assoc col (stds n) with
    | Some mu, Some sd => set_column res (zcol col) (map (zscore mu sd) (column df col))
    | _, _ => res
    end
  else res.

(** [columns or list(self._means.keys())]: [None] and [[]] both fall back. *)
Definition transform (n : t) (df : table) (columns : option (list string)) : result table :=
  if negb (fitted n) then Err (ValueError "Normalizer must be fitted before transforming")
  else
    let cols := match columns with
                | Some (c :: cs) => c :: cs
                | _ => map fst (means n)
                end in
    Ok (fold_left (transform_col n df) cols df).

Definition fit_transform (n : t) (df : table) (columns : list string) : t * result table :=
  let n' := fit n df columns in (n', transform n' df (Some columns)).

Definition fitted_columns (n : t) : list string := map fst (means n).

(** [get_z_score(column, value)]: [self._stds[column]] raises [KeyError]
    if only the mean is stored. *)
Definition get_z_score (n : t) (column : string) (value_ : R) : result value :=
  match assoc column (means n) with
  | None => Err (ValueError (String.append "Column " (String.append column " not fitted")))
  | Some mu =>
      match assoc column (stds n) with
      | Some sd => Ok (zscore mu sd (Some value_))
      | None => Err (KeyError column)
      end
  end.

(** [get_stats(column)]: the pair (mean, std). *)
Definition get_stats (n : t) (column : string) : result (value * value) :=
  match assoc column (means n) with
  | None => Err (ValueError (String.append "Column " (String.append column " not fitted")))
  | Some mu =>
      match assoc column (stds n) with
      | Some sd => Ok (mu, sd)
      | None => Err (KeyError column)
      end
  end.

End Normalizer.

(* ------------------------------------------------------------------ *)
(** ** DistanceCalculator (distance.py) *)

(** A Python float produced by the distance: finite, NaN ([np.sqrt] of a
    negative number) or [float("inf")]. *)
Inductive dist := DFin (d : R) | DNaN | DInf.

Definition weight_lookup := list (string * R).

(** [self.weights.get(base_col, 1.0)] *)
Definition weight_of (w : weight_lookup) (base : string) : R :=
  match assoc base w with Some x => x | None => 1 end.

Definition np_sqrt (x : R) : dist := if Rlt_dec x 0 then DNaN else DFin (sqrt x).

(** The loop body of [calculate_distance]: running (total_distance, total_weight). *)
Definition distance_step (w : weight_lookup) (target candidate : row)
    (acc : R * R) (z_col : string) : R * R :=
  let '(total_distance, total_weight) := acc in
  let weight := weight_of w (replace_underscore_z z_col) in
  match cell target z_col, cell candidate z_col with
  | Some t, Some c =>
      let diff := t - c in (total_distance + weight * diff ^ 2, total_weight + weight)
  | _, _ => (total_distance, total_weight)
  end.

Definition calculate_distance (w : weight_lookup) (target candidate : row)
    (z_columns : list string) : dist :=
  let '(total_distance, total_weight) :=
    fold_left (distance_step w target candidate) z_columns (0, 0) in
  if Req_dec_T total_weight 0 then DInf else np_sqrt total_distance.

Definition distance_to_similarity (distance max_distance : R) : R :=
  if Req_dec_T max_distance 0 then 100
  else Rmax 0 (Rmin 100 ((1 - distance / max_distance) * 100)).

Definition Rleb (a b : R) : bool := if Rle_dec a b then true else false.
Definition Rltb (a b : R) : bool := if Rlt_dec a b then true else false.

(** [max(col_data) - min(col_data)] of a non-empty series *)
Definition z_range (x : R) (xs : list R) : R :=
  fold_left Rmax xs x - fold_left Rmin xs x.

(** The max-distance estimate shared by [_prepare_dataset] and
    [_normalize_by_pitch_type]: average z-range times the square root of the
    total weight times 1.5, or 10.0 when no z-column has a value. *)
Definition estimate_max_distance (df : table) (w : weight_lookup) (z_columns : list string) : R :=
  let z_ranges :=
    flat_map (fun col =>
                if mem col (tcols df) then
                  match dropna (column df col) with
                  | [] => []
                  | x :: xs => [z_range x xs]
                  end
                else []) z_columns in
  match z_ranges with
  | [] => 10
  | _ =>
      let total_weight := sumR (map (fun c => weight_of w (replace_underscore_z c)) z_columns) in
      let avg_range := sumR z_ranges / INR (List.length z_ranges) in
      avg_range * sqrt total_weight * (3 / 2)
  end.

(* ------------------------------------------------------------------ *)
(** ** Metric configuration (metrics/definitions.py, pitcher_definitions.py,
       pitch_model_definitions.py) *)

Inductive player_type := BATTER | PITCHER.

Record metric_config := mkConfig {
  player_type_of : player_type;
  metric_weights : weight_lookup;
  primary_metrics : list string;
  sanity_check_metric : string;
  sanity_check_tolerance : R;
  lower_is_better : list string;
  result_stats : list string
}.

Local Open Scope string_scope.

Definition METRIC_WEIGHTS : weight_lookup :=
  [("exit_velocity", 1); ("max_exit_velocity", 8/10); ("launch_angle", 7/10);
   ("barrel_pct", 1); ("hard_hit_pct", 9/10); ("pulled_fb_pct", 8/10);
   ("chase_rate", 9/10); ("whiff_pct", 9/10); ("swstr_pct", 8/10); ("k_pct", 8/10);
   ("bb_pct", 8/10); ("zone_contact_pct", 8/10); ("gb_pct", 6/10)]. 

Definition PRIMARY_METRICS : list string :=
  ["exit_velocity"; "max_exit_velocity"; "launch_angle"; "barrel_pct"; "hard_hit_pct";
   "pulled_fb_pct"; "chase_rate"; "zone_contact_pct"; "whiff_pct"; "swstr_pct";
   "k_pct"; "bb_pct"; "gb_pct"]. 

Definition BATTER_LOWER_IS_BETTER : list string :=
  ["chase_rate"; "whiff_pct"; "swstr_pct"; "k_pct"; "gb_pct"]. 

Definition PITCHER_METRIC_WEIGHTS : weight_lookup :=
  [("ip", 12/10); ("k_pct", 1); ("bb_pct", 1); ("k_bb_pct", 1); ("gb_pct", 8/10);
   ("xera", 5/10); ("xfip", 9/10); ("barrel_pct_against", 1);
   ("hard_hit_pct_against", 9/10); ("stuff_plus", 8/10); ("lob_pct", 6/10);
   ("babip", 5/10); ("chase_pct", 8/10); ("whiff_pct", 9/10); ("zone_pct", 7/10);
   ("zone_contact_pct", 8/10); ("arm_angle", 5/10)]. 

Definition PITCHER_PRIMARY_METRICS : list string :=
  ["k_pct"; "bb_pct"; "k_bb_pct"; "barrel_pct_against"; "hard_hit_pct_against";
   "whiff_pct"; "xfip"; "chase_pct"; "stuff_plus"; "gb_pct"; "zone_contact_pct";
   "zone_pct"; "lob_pct"; "babip"; "xera"; "ip"; "arm_angle"]. 

Definition PITCHER_LOWER_IS_BETTER : list string :=
  ["bb_pct"; "xera"; "xfip"; "barrel_pct_against"; "hard_hit_pct_against";
   "babip"; "zone_contact_pct"]. 

Definition PITCH_METRIC_WEIGHTS : weight_lookup :=
  [("avg_velo", 1); ("avg_ivb", 9/10); ("avg_ihb", 9/10); ("avg_spin", 7/10);
   ("stuff_plus", 1); ("whiff_pct", 1); ("chase_pct", 8/10); ("zone_pct", 6/10)]. 

Definition PITCH_COMPARISON_METRICS : list string :=
  ["avg_velo"; "avg_ivb"; "avg_ihb"; "avg_spin"; "stuff_plus"; "whiff_pct";
   "chase_pct"; "zone_pct"]. 

Definition MIN_COMP_PITCHES : R := 100.
Definition STARTER_GS_RATIO : R := 1 / 2.
Definition MIN_STARTER_COMP_IP : R := 80.

Definition get_metric_config (pt : player_type) : metric_config :=
  match pt with
  | BATTER =>
      mkConfig BATTER METRIC_WEIGHTS PRIMARY_METRICS "xwoba" (3 / 100)
        BATTER_LOWER_IS_BETTER ["G"; "PA"; "AVG"; "OBP"; "SLG"; "OPS"; "wRC+"]
  | PITCHER =>
      mkConfig PITCHER PITCHER_METRIC_WEIGHTS PITCHER_PRIMARY_METRICS "xera" (1 / 2)
        PITCHER_LOWER_IS_BETTER
        ["G"; "GS"; "IP"; "ERA"; "W"; "L"; "K"; "BB"; "WHIP"; "FIP"; "WAR"]
  end.

Local Close Scope string_scope.

(* ------------------------------------------------------------------ *)
(** ** SimilarityEngine (engine.py) *)

Module Engine.

Record t := mk {
  dataset : table;
  weights : weight_lookup;
  sanity_tolerance : R;
  sanity_metric : string;
  eng_lower_is_better : list string;
  eng_result_stats : list string;
  is_batter : bool;
  normalizer : Normalizer.t;
  metrics_used : list string;
  z_columns : list string;
  max_distance : R
}.

(** [_prepare_dataset]: the fitted normalizer, the metrics used, their
    z-columns, the transformed dataset and the max-distance estimate. *)
Definition prepare_dataset (df : table) (w : weight_lookup) (primary : list string)
  : result (Normalizer.t * list string * list string * table * R) :=
  let available_metrics := filter (fun m => mem m (tcols df)) primary in
  match available_metrics with
  | [] => Err (ValueError "Dataset missing all primary metrics")
  | _ =>
      let '(n, transformed) := Normalizer.fit_transform Normalizer.init df available_metrics in
      let! ds := transformed in
      let zc := map zcol available_metrics in
      Ok (n, available_metrics, zc, ds, estimate_max_distance ds w zc)
  end.

(** [config or get_metric_config(PlayerType.BATTER)] *)
Definition config_or_default (config : option metric_config) : metric_config :=
  match config with Some c => c | None => get_metric_config BATTER end.

(** [SimilarityEngine.__init__(dataset, weights, xwoba_tolerance, config)].
    [weights or ...] and [xwoba_tolerance or ...] fall back on an empty dict
    and on [0.0] as Python does.  The batter-only [PulledFlyBallCalculator]
    built here only stores its fetcher and cache handles. *)
Definition create (df : table) (w : option weight_lookup) (tol : option R)
    (config : option metric_config) : result t :=
  let cfg := config_or_default config in
  let ws := match w with Some ((_ :: _) as l) => l | _ => metric_weights cfg end in
  let tl := match tol with
            | Some x => if Req_dec_T x 0 then sanity_check_tolerance cfg else x
            | None => sanity_check_tolerance cfg
            end in
  let batter := match player_type_of cfg with BATTER => true | PITCHER => false end in
  let! prep := prepare_dataset df ws (primary_metrics cfg) in
  let '(n, used, zc, ds, maxd) := prep in
  Ok (mk ds ws tl (sanity_check_metric cfg) (lower_is_better cfg) (result_stats cfg)
         batter n used zc maxd).

Definition is_empty (df : table) : bool :=
  match trows df with [] => true | _ => false end.

(** [(dataset["mlbam_id"] == player_id) & (dataset["season"] == season)] *)
Definition target_mask (player_id season_ : Z) (r : row) : bool :=
  Z.eqb (mlbam_id r) player_id && Z.eqb (season r) season_.

(** The sanity-check (outcome-tolerance) filter of [find_similar]; a
    missing candidate value fails both comparisons. *)
Definition sanity_filter (e : t) (target : row) (candidates : table) : table :=
  let sm := sanity_metric e in
  if mem sm (tcols candidates) && mem sm (tcols (dataset e)) then
    match cell target sm with
    | Some target_sanity =>
        filter_rows
          (fun c => match cell c sm with
                    | Some v => Rleb (target_sanity - sanity_tolerance e) v
                                && Rleb v (target_sanity + sanity_tolerance e)
                    | None => false
                    end) candidates
    | None => candidates
    end
  else candidates.

Definition fillna0 (v : value) : R := match v with Some x => x | None => 0 end.

(** [(cand_gs / cand_g.replace(0, nan)) >= STARTER_GS_RATIO] after
    [fillna(0)] on both columns: a zero or missing G gives NaN, i.e. false. *)
Definition cand_is_starter (c : row) : bool :=
  let g := fillna0 (cell c "G") in
  let gs := fillna0 (cell c "GS") in
  if Req_dec_T g 0 then false else Rleb STARTER_GS_RATIO (gs / g).

(** [_filter_by_pitcher_role(target, candidates)]; [target_index] is
    [target.index], the dataset's columns. *)
Definition filter_by_pitcher_role (target_index : list string) (target : row)
    (candidates : table) : result table :=
  let target_g := if mem "G" target_index then cell target "G" else None in
  let target_gs := if mem "GS" target_index then cell target "GS" else None in
  match target_g, target_gs with
  | Some tg, Some tgs =>
      if Req_dec_T tg 0 then Ok candidates
      else
        let target_is_starter := Rleb STARTER_GS_RATIO (tgs / tg) in
        if negb (mem "G" (tcols candidates) && mem "GS" (tcols candidates)) then Ok candidates
        else if target_is_starter then
          if mem "IP" (tcols candidates) then
            Ok (filter_rows (fun c => cand_is_starter c
                                      && Rleb MIN_STARTER_COMP_IP (fillna0 (cell c "IP")))
                            candidates)
          else Err (KeyError "IP")
        else Ok (filter_rows (fun c => negb (cand_is_starter c)) candidates)
  | _, _ => Ok candidates
  end.

Definition count_notna (c : row) (cols : list string) : nat :=
  List.length (filter (fun z => match cell c z with Some _ => true | None => false end) cols).

Local Open Scope string_scope.

Definition coverage_groups (batter : bool) : list string * list string :=
  if batter then
    (["exit_velocity"; "barrel_pct"; "hard_hit_pct"; "launch_angle"],
     ["chase_rate"; "whiff_pct"; "k_pct"; "bb_pct"])
  else
    (["k_pct"; "whiff_pct"; "chase_pct"; "stuff_plus"],
     ["bb_pct"; "xfip"; "xera"; "zone_pct"]).

Local Close Scope string_scope.

(** [_filter_candidates_by_metrics]: at least two non-missing z-scores in
    each group; an empty group counts 0.  [candidates[cols]] raises on an
    absent column. *)
Definition filter_candidates_by_metrics (e : t) (candidates : table) : result table :=
  let '(g1, g2) := coverage_groups (is_batter e) in
  let z1 := filter (fun z => mem z (z_columns e)) (map zcol g1) in
  let z2 := filter (fun z => mem z (z_columns e)) (map zcol g2) in
  match find (fun z => negb (mem z (tcols candidates))) (z1 ++ z2)%list with
  | Some z => Err (KeyError z)
  | None =>
      Ok (filter_rows (fun c => (2 <=? count_notna c z1)%nat && (2 <=? count_notna c z2)%nat)
                      candidates)
  end.

(** A candidate row with its distance and similarity. *)
Record scored := mkScored { sc_row : row; sc_distance : R; sc_similarity : R }.

(** [candidates[candidates["distance"] < inf]]: NaN and inf are dropped. *)
Definition keep_finite (e : t) (target : row) (c : row) : list scored :=
  match calculate_distance (weights e) target c (z_columns e) with
  | DFin d => [mkScored c d (distance_to_similarity d (max_distance e))]
  | DNaN | DInf => []
  end.

(** [nsmallest(top_n, "distance")]: a stable ascending sort, then a prefix. *)
Fixpoint insert_by_distance (x : scored) (l : list scored) : list scored :=
  match l with
  | [] => [x]
  | y :: tl => if Rleb (sc_distance y) (sc_distance x) then y :: insert_by_distance x tl
               else x :: l
  end.

Definition nsmallest (top_n : nat) (l : list scored) : list scored :=
  firstn top_n (fold_left (fun acc x => insert_by_distance x acc) l []).

(** Step 2: every other row, without the player's other seasons on request. *)
Definition candidate_pool (ds : table) (player_id season_ : Z) (exclude_same_player : bool)
  : table :=
  let c0 := filter_rows (fun r => negb (target_mask player_id season_ r)) ds in
  if exclude_same_player
  then filter_rows (fun r => negb (Z.eqb (mlbam_id r) player_id)) c0 else c0.

(** Steps 1-7 of [find_similar]: the rows kept in [top_matches], with the
    early [return []] exits. *)
Definition find_similar_matches (e : t) (player_id season_ : Z) (top_n : nat)
    (exclude_same_player : bool) : result (list scored) :=
  let ds := dataset e in
  match find (target_mask player_id season_) (trows ds) with
  | None => Ok []
  | Some target =>
      let c2 := sanity_filter e target (candidate_pool ds player_id season_ exclude_same_player) in
      if is_empty c2 then Ok [] else
      let! c3 := if is_batter e then Ok c2 else filter_by_pitcher_role (tcols ds) target c2 in
      if is_empty c3 then Ok [] else
      let! c4 := filter_candidates_by_metrics e c3 in
      if is_empty c4 then Ok [] else
      let kept := flat_map (keep_finite e target) (trows c4) in
      match kept with
      | [] => Ok []
      | _ => Ok (nsmallest top_n kept)
      end
  end.

(** [_calculate_percentile(metric, value, season, higher_is_better)] *)
Definition calculate_percentile (e : t) (metric : string) (v : value) (season_ : Z)
    (higher_is_better : bool) : R :=
  match v with
  | None => 50
  | Some x =>
      if negb (mem metric (tcols (dataset e))) then 50
      else
        let season_data := filter (fun r => Z.eqb (season r) season_) (trows (dataset e)) in
        let col_data := dropna (map (fun r => cell r metric) season_data) in
        match col_data with
        | [] => 50
        | _ =>
            let pct := INR (List.length (filter (fun y => Rltb y x) col_data))
                       / INR (List.length col_data) * 100 in
            let pct := if higher_is_better then pct else 100 - pct in
            Rmax 1 (Rmin 99 pct)
        end
  end.

(** A result dict.  [res_values] holds, in insertion order, the numeric
    entries the code stores under metric, sanity-check, result-stat and
    ["pulled_fb_pct"] keys (one dict, so a repeated key is overwritten). *)
Record result_record := mkResult {
  res_mlbam_id : Z;
  res_season : Z;
  res_similarity : option R;
  res_distance : option R;
  res_name : option string;
  res_values : list (string * value);
  res_percentiles : list (string * R)
}.

Local Open Scope string_scope.

Section Enrichment.

(** Python's [round(x, ndigits)]. *)
Variable py_round : R -> nat -> R.
(** [PulledFlyBallCalculator.calculate_for_player_season]: fetches pitch
    data; an exception is caught by the caller and reads as [None]. *)
Variable calculate_for_player_season : Z -> Z -> option R.

Definition get_pulled_fb_pct (e : t) (player_id season_ : Z) : option R :=
  if negb (is_batter e) then None
  else
    let on_demand := calculate_for_player_season player_id season_ in
    match find (target_mask player_id season_) (trows (dataset e)) with
    | Some r =>
        if mem "pulled_fb_pct" (tcols (dataset e)) then
          match cell r "pulled_fb_pct" with Some v => Some v | None => on_demand end
        else on_demand
    | None => on_demand
    end.

Definition str_cell (r : row) (c : string) : string :=
  match assoc c (strs r) with Some s => s | None => "nan" end.

Definition name_of (e : t) (r : row) : option string :=
  if mem "first_name" (tcols (dataset e)) && mem "last_name" (tcols (dataset e))
  then Some (str_cell r "first_name" ++ " " ++ str_cell r "last_name")
  else None.

(** The metric, sanity-check, result-stat and pulled-FB% entries of a result. *)
Definition base_values (e : t) (r : row) : list (string * value) :=
  let cols := tcols (dataset e) in
  let v1 := fold_left (fun acc m => if mem m cols then dict_set m (cell r m) acc else acc)
                      (metrics_used e) [] in
  let sm := sanity_metric e in
  let v2 := if mem sm cols then dict_set sm (cell r sm) v1 else v1 in
  let v3 := fold_left (fun acc st =>
                         if mem st cols then
                           match cell r st with Some x => dict_set st (Some x) acc | None => acc end
                         else acc) (eng_result_stats e) v2 in
  if is_batter e then
    match get_pulled_fb_pct e (mlbam_id r) (season r) with
    | Some x => dict_set "pulled_fb_pct" (Some x) v3
    | None => v3
    end
  else v3.

(** [_add_percentiles(result)] *)
Definition add_percentiles (e : t) (res : result_record) : result_record :=
  let s := res_season res in
  let vals := res_values res in
  let p1 := fold_left (fun acc m =>
              match assoc m vals with
              | Some v => dict_set (m ++ "_pct")
                            (calculate_percentile e m v s (negb (mem m (eng_lower_is_better e)))) acc
              | None => acc
              end) (metrics_used e) [] in
  let sm := sanity_metric e in
  let p2 := match assoc sm vals with
            | Some v => dict_set (sm ++ "_pct")
                          (calculate_percentile e sm v s (negb (mem sm (eng_lower_is_better e)))) p1
            | None => p1
            end in
  let p3 := if is_batter e then
              match assoc "pulled_fb_pct" vals with
              | Some (Some x) => dict_set "pulled_fb_pct_pct" (Rmin 99 (Rmax 1 ((x - 8) / 17 * 100))) p2
              | Some None => dict_set "pulled_fb_pct_pct" 1 p2   (* min(99, max(1, nan)) = 1 *)
              | None => p2
              end
            else p2 in
  mkResult (res_mlbam_id res) (res_season res) (res_similarity res) (res_distance res)
           (res_name res) vals p3.

Definition make_result (e : t) (sc : scored) : result_record :=
  let r := sc_row sc in
  add_percentiles e
    (mkResult (mlbam_id r) (season r) (Some (py_round (sc_similarity sc) 1))
              (Some (py_round (sc_distance sc) 4)) (name_of e r) (base_values e r) []).

(** [find_similar(player_id, season, top_n, exclude_same_player)] *)
Definition find_similar (e : t) (player_id season_ : Z) (top_n : nat)
    (exclude_same_player : bool) : result (list result_record) :=
  let! matches := find_similar_matches e player_id season_ top_n exclude_same_player in
  Ok (map (make_result e) matches).

(** [get_player_season(player_id, season)]: no path of it raises. *)
Definition get_player_season (e : t) (player_id season_ : Z) : option result_record :=
  match find (target_mask player_id season_) (trows (dataset e)) with
  | None => None
  | Some r =>
      Some (add_percentiles e (mkResult (mlbam_id r) (season r) None None (name_of e r)
                                        (base_values e r) []))
  end.

End Enrichment.

Local Close Scope string_scope.

End Engine.

(* ------------------------------------------------------------------ *)
(** ** PitchSimilarityEngine construction (pitch_engine.py) *)

Module PitchEngine.

Record t := mk {
  dataset : table;
  weights : weight_lookup;
  metrics : list string;
  normalizers : list (string * Normalizer.t);
  z_columns : list string;
  max_distance : R
}.

Local Open Scope string_scope.

Definition pitch_type_of (r : row) : option string := assoc "pitch_type" (strs r).

(** The group keys of [groupby("pitch_type")]: sorted, missing keys dropped. *)
Fixpoint insert_key (k : string) (l : list string) : list string :=
  match l with
  | [] => [k]
  | h :: tl =>
      match String.compare k h with
      | Lt => k :: l
      | Eq => l
      | Gt => h :: insert_key k tl
      end
  end.

Definition group_keys (df : table) : list string :=
  fold_left (fun acc r => match pitch_type_of r with Some k => insert_key k acc | None => acc end)
            (trows df) [].

Definition group_of (df : table) (key : string) : table :=
  filter_rows (fun r => match pitch_type_of r with Some k => String.eqb k key | None => false end) df.

(** One iteration of the loop of [_normalize_by_pitch_type]. *)
Definition normalize_group (df : table) (ms : list string)
    (acc : result (list (string * Normalizer.t) * list table)) (key : string)
  : result (list (string * Normalizer.t) * list table) :=
  let! st := acc in
  let '(norms, parts) := st in
  let group := group_of df key in
  let available := filter (fun m => mem m (tcols group)) ms in
  match available with
  | [] => Ok (norms, (parts ++ [group])%list)
  | _ =>
      let '(n, transformed) := Normalizer.fit_transform Normalizer.init group available in
      let! normalized := transformed in
      Ok (dict_set key n norms, (parts ++ [normalized])%list)
  end.

(** The z-scoring part of [_normalize_by_pitch_type]; [pd.concat] of the
    groups, which all carry the same columns. *)
Definition normalize_by_pitch_type (df : table) (ms : list string)
  : result (list (string * Normalizer.t) * table) :=
  if negb (mem "pitch_type" (tcols df)) then Err (KeyError "pitch_type")
  else
    let! st := fold_left (normalize_group df ms) (group_keys df) (Ok ([], [])) in
    let '(norms, parts) := st in
    let ds := match parts with
              | [] => df
              | p :: _ => mkTable (tcols p) (flat_map trows parts)
              end in
    Ok (norms, ds).

(** [PitchSimilarityEngine.__init__(dataset)] *)
Definition create (df : table) : result t :=
  let ms := filter (fun m => mem m (tcols df)) PITCH_COMPARISON_METRICS in
  match ms with
  | [] => Err (ValueError "Dataset missing all pitch comparison metrics")
  | _ =>
      let zc := map zcol ms in
      let! p := normalize_by_pitch_type df ms in
      let '(norms, ds) := p in
      Ok (mk ds PITCH_METRIC_WEIGHTS ms norms zc
             (estimate_max_distance ds PITCH_METRIC_WEIGHTS zc))
  end.

(** [for ... : ...append(f(x))] where [f] may raise: the first error wins. *)
Fixpoint map_result {A B} (f : A -> result B) (l : list A) : result (list B) :=
  match l with
  | [] => Ok []
  | x :: tl => let! y := f x in let! ys := map_result f tl in Ok (y :: ys)
  end.

(** Python's [int(x)] on a float: truncation toward zero. *)
Definition py_int (x : R) : Z :=
  if Rle_dec 0 x then Int_part x else (- Int_part (- x))%Z.

(** A pitch dict of [get_pitcher_pitches]: a [None] string is NaN. *)
Record pitch_record := mkPitch {
  p_pitch_type : option string;
  p_pitch_name : option string;
  p_n_pitches : Z;
  p_values : list (string * R)
}.

(** [int(row.get("n_pitches", 0))]: 0 without the column, and [int(nan)]
    raises. *)
Definition n_pitches_of (cols : list string) (r : row) : result Z :=
  if mem "n_pitches" cols then
    match cell r "n_pitches" with
    | Some x => Ok (py_int x)
    | None => Err (ValueError "cannot convert float NaN to integer")
    end
  else Ok 0%Z.

(** The non-missing entries of [keys] in a row, as [pitch[key] = row[key]]. *)
Definition present_values (cols : list string) (r : row) (keys : list string)
    (acc : list (string * R)) : list (string * R) :=
  fold_left (fun acc m =>
               if mem m cols then
                 match cell r m with Some x => dict_set m x acc | None => acc end
               else acc) keys acc.

(** The body of the loop of [get_pitcher_pitches]. *)
Definition pitch_of (e : t) (r : row) : result pitch_record :=
  let cols := tcols (dataset e) in
  let pitch_type := pitch_type_of r in
  let pitch_name := if mem "pitch_name" cols then assoc "pitch_name" (strs r) else pitch_type in
  let! n := n_pitches_of cols r in
  let vals := present_values cols r ["arm_angle"] (present_values cols r (metrics e) []) in
  Ok (mkPitch pitch_type pitch_name n vals).

(** [list.sort(key=..., reverse=True)] is stable: a new element goes after
    every element whose key is at least its own. *)
Fixpoint insert_desc (p : pitch_record) (l : list pitch_record) : list pitch_record :=
  match l with
  | [] => [p]
  | q :: tl => if (p_n_pitches p <=? p_n_pitches q)%Z then q :: insert_desc p tl else p :: l
  end.

Definition sort_by_n_pitches_desc (l : list pitch_record) : list pitch_record :=
  fold_left (fun acc p => insert_desc p acc) l [].

(** [get_pitcher_pitches(player_id, season)] *)
Definition get_pitcher_pitches (e : t) (player_id season_ : Z) : result (list pitch_record) :=
  match filter (Engine.target_mask player_id season_) (trows (dataset e)) with
  | [] => Ok []
  | rows => let! pitches := map_result (pitch_of e) rows in Ok (sort_by_n_pitches_desc pitches)
  end.

(** [dataset["pitch_type"] == pitch_type]: NaN equals nothing. *)
Definition same_pitch_type (a b : option string) : bool :=
  match a, b with Some x, Some y => String.eqb x y | _, _ => false end.

(** The candidate mask of [find_similar_pitches]. *)
Definition comp_candidate (player_id : Z) (pt : option string) (r : row) : bool :=
  same_pitch_type (pitch_type_of r) pt
  && negb (Z.eqb (mlbam_id r) player_id)
  && match cell r "n_pitches" with Some x => Rleb MIN_COMP_PITCHES x | None => false end
  && match cell r "stuff_plus" with Some _ => true | None => false end.

(** [candidates["is_starter"] == target_starter] when the column exists and
    the target's flag is known. *)
Definition role_match (e : t) (target : row) (cands : list row) : list row :=
  if mem "is_starter" (tcols (dataset e)) then
    match cell target "is_starter" with
    | Some ts =>
        filter (fun c => match cell c "is_starter" with
                         | Some v => if Req_dec_T v ts then true else false
                         | None => false
                         end) cands
    | None => cands
    end
  else cands.

(** A candidate with its distance, dropped unless the distance is finite. *)
Definition keep_finite (e : t) (zs : list string) (target c : row) : list Engine.scored :=
  match calculate_distance (weights e) target c zs with
  | DFin d => [Engine.mkScored c d (distance_to_similarity d (max_distance e))]
  | DNaN | DInf => []
  end.

(** One target pitch: [None] for each [continue], else the top matches. *)
Definition match_pitch_type (e : t) (player_id : Z) (top_n : nat) (target : row)
  : option (list Engine.scored) :=
  let cands := role_match e target
                 (filter (comp_candidate player_id (pitch_type_of target)) (trows (dataset e))) in
  match cands with
  | [] => None
  | _ =>
      match filter (fun z => mem z (tcols (dataset e))) (z_columns e) with
      | [] => None
      | available_z =>
          match flat_map (keep_finite e available_z target) cands with
          | [] => None
          | kept => Some (Engine.nsmallest top_n kept)
          end
      end
  end.

(** The key [results[pitch_type]]; a NaN pitch type matches no candidate,
    so it is never used. *)
Definition pitch_type_key (r : row) : string :=
  match pitch_type_of r with Some k => k | None => "nan" end.

(** [find_similar_pitches(player_id, season, top_n)], down to the matching
    rows of each pitch type.  The mask reads [pitch_type], [mlbam_id],
    [n_pitches] and [stuff_plus] in turn; a missing column raises. *)
Definition find_similar_pitch_matches (e : t) (player_id season_ : Z) (top_n : nat)
  : result (list (string * list Engine.scored)) :=
  let cols := tcols (dataset e) in
  match filter (Engine.target_mask player_id season_) (trows (dataset e)) with
  | [] => Ok []
  | target_rows =>
      if negb (mem "pitch_type" cols) then Err (KeyError "pitch_type")
      else if negb (mem "n_pitches" cols) then Err (KeyError "n_pitches")
      else if negb (mem "stuff_plus" cols) then Err (KeyError "stuff_plus")
      else
        Ok (fold_left (fun acc target =>
                         match match_pitch_type e player_id top_n target with
                         | Some ms => dict_set (pitch_type_key target) ms acc
                         | None => acc
                         end) target_rows [])
  end.

(** A match dict of [find_similar_pitches]. *)
Record pitch_match := mkPitchMatch {
  pm_mlbam_id : Z;
  pm_season : Z;
  pm_similarity : R;
  pm_distance : R;
  pm_pitch_type : string;
  pm_pitch_name : option string;
  pm_n_pitches : Z;
  pm_name : option string;
  pm_values : list (string * R)
}.

Section PitchResults.

(** Python's [round(x, ndigits)]. *)
Variable py_round : R -> nat -> R.

Definition pitch_match_of (e : t) (pitch_type : string) (sc : Engine.scored) : pitch_match :=
  let cols := tcols (dataset e) in
  let m := Engine.sc_row sc in
  mkPitchMatch (mlbam_id m) (season m) (py_round (Engine.sc_similarity sc) 1)
    (py_round (Engine.sc_distance sc) 4) pitch_type
    (if mem "pitch_name" cols then assoc "pitch_name" (strs m) else Some pitch_type)
    (py_int (Engine.fillna0 (cell m "n_pitches")))
    (if mem "first_name" cols && mem "last_name" cols
     then Some (Engine.str_cell m "first_name" ++ " " ++ Engine.str_cell m "last_name")
     else None)
    (present_values cols m ["arm_angle"] (present_values cols m (metrics e) [])).

(** [find_similar_pitches(player_id, season, top_n)] *)
Definition find_similar_pitches (e : t) (player_id season_ : Z) (top_n : nat)
  : result (list (string * list pitch_match)) :=
  let! res := find_similar_pitch_matches e player_id season_ top_n in
  Ok (map (fun '(k, ms) => (k, map (pitch_match_of e k) ms)) res).

End PitchResults.

Local Close Scope string_scope.

End PitchEngine.

(* ------------------------------------------------------------------ *)
(** ** Statements read off the spec, to compare with the code *)

(** A metric name with no ["_z"] inside. *)
Fixpoint no_underscore_z (s : string) : bool :=
  match s with
  | EmptyString => true
  | String c rest =>
      (negb (Ascii.eqb c "_"%char)
       || match rest with String d _ => negb (Ascii.eqb d "z"%char) | EmptyString => true end)
      && no_underscore_z rest
  end.

(** A dimension is included when both z-scores are present. *)
Definition included (a b : row) (m : string) : bool :=
  match cell a (zcol m), cell b (zcol m) with Some _, Some _ => true | _, _ => false end.

(** Spec 4.2: the weighted sum of squared differences over the included
    dimensions, each metric weighted by its own entry (1.0 when absent). *)
Definition weighted_sum_spec (w : weight_lookup) (a b : row) (ms : list string) : R :=
  sumR (map (fun m => match cell a (zcol m), cell b (zcol m) with
                      | Some x, Some y => weight_of w m * (x - y) ^ 2
                      | _, _ => 0
                      end) ms).

Definition included_weight (w : weight_lookup) (a b : row) (ms : list string) : R :=
  sumR (map (fun m => if included a b m then weight_of w m else 0) ms).

(** Spec 4.3, role filter: the role from games and games started;
    [None] when undetermined (games zero or unknown, games started unknown),
    [Some true] for a starter (GS / G >= 0.5). *)
Definition role_by_ratio (g gs : value) : option bool :=
  match g, gs with
  | Some g, Some gs => if Req_dec_T g 0 then None else Some (Rleb (1 / 2) (gs / g))
  | _, _ => None
  end.

(** A cell of a column the table has, missing otherwise. *)
Definition known (cols : list string) (r : row) (c : string) : value :=
  if mem c cols then cell r c else None.

Definition target_role (cols : list string) (target : row) : option bool :=
  role_by_ratio (known cols target "G") (known cols target "GS").

Definition is_starter_spec (c : row) : bool :=
  match role_by_ratio (cell c "G") (cell c "GS") with Some true => true | _ => false end.

(** The innings floor a starter candidate must meet. *)
Definition meets_ip_floor (c : row) : bool :=
  match cell c "IP" with Some ip => Rleb 80 ip | None => false end.

(** The non-missing values of a metric within one season. *)
Definition season_values (df : table) (m : string) (s : Z) : list R :=
  dropna (map (fun r => cell r m) (filter (fun r => Z.eqb (season r) s) (trows df))).

Definition clamp_1_99 (p : R) : R := Rmax 1 (Rmin 99 p).

(** Spec 4.3, percentile computation, word for word. *)
Definition percentile_spec (df : table) (m : string) (s : Z) (x : R) (higher_is_better : bool) : R :=
  let vs := season_values df m s in
  let p := INR (List.length (filter (fun y => Rltb y x) vs)) / INR (List.length vs) * 100 in
  clamp_1_99 (if higher_is_better then p else 100 - p).

(** ** Concrete tables used by the witnesses and counterexamples *)

Module Examples.

Local Open Scope string_scope.

Definition prow (id : Z) (fs : list (string * value)) : row := mkRow id 2024 [] fs.

(** Two 2024 batter rows with k_pct 1 and 2. *)
Definition pct_table : table :=
  mkTable ["k_pct"] [prow 1 [("k_pct", Some 1)]; prow 2 [("k_pct", Some 2)]].

Definition engine_of (ds : table) (batter : bool) (zc : list string) : Engine.t :=
  Engine.mk ds [] (3 / 100) "xwoba" [] [] batter Normalizer.init
            (map (fun _ => "k_pct") zc) zc 10.

Definition pct_engine : Engine.t := engine_of pct_table true ["k_pct_z"].

(** A column that is present with every cell missing. *)
Definition nan_table : table := mkTable ["k_pct"] [prow 1 [("k_pct", None)]].

(** A column whose two values are equal. *)
Definition flat_table : table :=
  mkTable ["k_pct"] [prow 1 [("k_pct", Some 5)]; prow 2 [("k_pct", Some 5)]].

(** The role-match scenario of spec section 8. *)
Definition role_cols : list string := ["G"; "GS"; "IP"].
Definition role_target : row := prow 10 [("G", Some 30); ("GS", Some 30); ("IP", Some 40)].
Definition role_reliever : row := prow 11 [("G", Some 60); ("GS", Some 2); ("IP", Some 70)].
Definition role_starter : row := prow 12 [("G", Some 30); ("GS", Some 30); ("IP", Some 90)].
Definition role_cands : table := mkTable role_cols [role_reliever; role_starter].

(** A target with an xwOBA and a candidate without one, nor any z-score. *)
Definition sanity_target : row := prow 20 [("xwoba", Some (3 / 10)); ("k_pct_z", Some 1)].
Definition sanity_other : row := prow 21 [].
Definition sanity_engine : Engine.t :=
  engine_of (mkTable ["xwoba"; "k_pct_z"] [sanity_target; sanity_other]) true ["k_pct_z"].

(** A ranking scenario: a target, a candidate with the same four z-scores
    and xwOBA, and a candidate with one z-score only. *)
Definition rank_cols : list string :=
  ["xwoba"; "exit_velocity_z"; "barrel_pct_z"; "k_pct_z"; "bb_pct_z"].
Definition rank_fields : list (string * value) :=
  [("xwoba", Some (3 / 10)); ("exit_velocity_z", Some 1); ("barrel_pct_z", Some 0);
   ("k_pct_z", Some (-1)); ("bb_pct_z", Some 2)].
Definition rank_target : row := prow 30 rank_fields.
Definition rank_cand : row := prow 31 rank_fields.
Definition rank_sparse : row := prow 32 [("xwoba", Some (3 / 10)); ("k_pct_z", Some 1)].
Definition rank_engine : Engine.t :=
  engine_of (mkTable rank_cols [rank_target; rank_cand; rank_sparse]) true
            ["exit_velocity_z"; "barrel_pct_z"; "k_pct_z"; "bb_pct_z"].

(** A pitch scenario: two pitchers' four-seamers and a pitch without a
    count. *)
Definition pitch_cols : list string := ["pitch_type"; "n_pitches"; "stuff_plus"; "stuff_plus_z"].
Definition pitch_row (id : Z) (n : value) : row :=
  mkRow id 2024 [("pitch_type", "FF")]
        [("n_pitches", n); ("stuff_plus", Some 100); ("stuff_plus_z", Some 0)].
Definition pitch_engine (rows : list row) : PitchEngine.t :=
  PitchEngine.mk (mkTable pitch_cols rows) [] ["stuff_plus"] [] ["stuff_plus_z"] 10.
Definition pitch_pair : PitchEngine.t :=
  pitch_engine [pitch_row 40 (Some 200); pitch_row 41 (Some 200)].
Definition pitch_nan : PitchEngine.t := pitch_engine [pitch_row 50 None].

(** A raw pitch table: one row with a pitch type, one without. *)
Definition pitch_mixed : table :=
  mkTable ["pitch_type"; "stuff_plus"]
    [mkRow 60 2024 [("pitch_type", "FF")] [("stuff_plus", Some 100)];
     mkRow 61 2024 [] [("stuff_plus", Some 90)]].

Local Close Scope string_scope.

End Examples.

(* ================================================================== *)
(** * Proofs *)

(** ** Strings and dicts *)

Lemma replace_zcol (m : string) :
  no_underscore_z m = true -> replace_underscore_z (zcol m) = m.
Proof.
  unfold zcol. induction m as [|c m IH]; intro H; [reflexivity|].
  simpl in H. apply andb_prop in H as [Hc Hm].
  specialize (IH Hm). simpl.
  destruct (Ascii.eqb c "_"%char) eqn:Ec; simpl in Hc.
  - destruct m as [|d m'].
    + apply Ascii.eqb_eq in Ec. subst c. reflexivity.
    + apply negb_true_iff in Hc. simpl. rewrite Hc. simpl in IH. rewrite IH. reflexivity.
  - rewrite IH. reflexivity.
Qed.

Lemma mem_In (x : string) (l : list string) : mem x l = true <-> In x l.
Proof.
  unfold mem. rewrite existsb_exists. split.
  - intros [y [Hy E]]. apply String.eqb_eq in E. subst. exact Hy.
  - intro H. exists x. split; [exact H | apply String.eqb_refl].
Qed.

Lemma assoc_In {A} (k : string) (v : A) (l : list (string * A)) :
  assoc k l = Some v -> In (k, v) l.
Proof.
  induction l as [|[k' v'] l IH]; simpl; [discriminate|].
  destruct (String.eqb k k') eqn:E.
  - intro H. injection H as <-. apply String.eqb_eq in E. subst. left. reflexivity.
  - intro H. right. exact (IH H).
Qed.

Lemma assoc_dict_set_same {A} (k : string) (v : A) (l : list (string * A)) :
  assoc k (dict_set k v l) = Some v.
Proof.
  induction l as [|[k' v'] l IH]; simpl.
  - rewrite String.eqb_refl. reflexivity.
  - destruct (String.eqb k k') eqn:E; simpl.
    + rewrite String.eqb_refl. reflexivity.
    + rewrite E. exact IH.
Qed.

Lemma assoc_dict_set_other {A} (k k2 : string) (v : A) (l : list (string * A)) :
  k2 <> k -> assoc k2 (dict_set k v l) = assoc k2 l.
Proof.
  intro Hne. induction l as [|[k' v'] l IH]; simpl.
  - destruct (String.eqb k2 k) eqn:E; [apply String.eqb_eq in E; contradiction | reflexivity].
  - destruct (String.eqb k k') eqn:E; simpl.
    + apply String.eqb_eq in E. subst k'.
      destruct (String.eqb k2 k) eqn:E2; [apply String.eqb_eq in E2; contradiction | reflexivity].
    + destruct (String.eqb k2 k'); [reflexivity | exact IH].
Qed.

Lemma filter_all_false {A} (f : A -> bool) (l : list A) :
  (forall x, In x l -> f x = false) -> filter f l = [].
Proof.
  induction l as [|x l IH]; intro H; simpl; [reflexivity|].
  rewrite (H x (or_introl eq_refl)). apply IH. intros y Hy. apply H. right. exact Hy.
Qed.

Lemma sumR_cons (x : R) (l : list R) : sumR (x :: l) = x + sumR l.
Proof. reflexivity. Qed.

(** ** The distance loop *)

Lemma distance_step_eq (w : weight_lookup) (a b : row) (td tw : R) (z : string) :
  distance_step w a b (td, tw) z
  = match cell a z, cell b z with
    | Some t, Some c =>
        (td + weight_of w (replace_underscore_z z) * (t - c) ^ 2,
         tw + weight_of w (replace_underscore_z z))
    | _, _ => (td, tw)
    end.
Proof. reflexivity. Qed.

Lemma distance_step_sym (w : weight_lookup) (a b : row) (acc : R * R) (z : string) :
  distance_step w a b acc z = distance_step w b a acc z.
Proof.
  destruct acc as [td tw]. unfold distance_step.
  destruct (cell a z), (cell b z); try reflexivity.
  f_equal; ring.
Qed.

Lemma distance_fold_sym (w : weight_lookup) (a b : row) (dims : list string) (acc : R * R) :
  fold_left (distance_step w a b) dims acc = fold_left (distance_step w b a) dims acc.
Proof.
  revert acc. induction dims as [|z dims IH]; intro acc; simpl; [reflexivity|].
  rewrite distance_step_sym. apply IH.
Qed.

Lemma distance_fold_spec (w : weight_lookup) (a b : row) (ms : list string) (td tw : R) :
  Forall (fun m => no_underscore_z m = true) ms ->
  fold_left (distance_step w a b) (map zcol ms) (td, tw)
  = (td + weighted_sum_spec w a b ms, tw + included_weight w a b ms).
Proof.
  revert td tw. induction ms as [|m ms IH]; intros td tw HF; cbn [map fold_left].
  - unfold weighted_sum_spec, included_weight. simpl. f_equal; ring.
  - inversion HF as [|? ? Hm Hms]; subst.
    rewrite distance_step_eq, (replace_zcol m Hm).
    unfold weighted_sum_spec, included_weight. cbn [map]. rewrite !sumR_cons.
    unfold included.
    destruct (cell a (zcol m)) as [x|], (cell b (zcol m)) as [y|];
      rewrite (IH _ _ Hms); unfold weighted_sum_spec, included_weight, included;
      f_equal; ring.
Qed.

Lemma distance_fold_none (w : weight_lookup) (a b : row) (dims : list string) (acc : R * R) :
  (forall z, In z dims -> cell a z = None \/ cell b z = None) ->
  fold_left (distance_step w a b) dims acc = acc.
Proof.
  revert acc. induction dims as [|z dims IH]; intros [td tw] H; cbn [fold_left]; [reflexivity|].
  rewrite distance_step_eq.
  assert (Hs : match cell a z, cell b z with
               | Some t, Some c =>
                   (td + weight_of w (replace_underscore_z z) * (t - c) ^ 2,
                    tw + weight_of w (replace_underscore_z z))
               | _, _ => (td, tw)
               end = (td, tw)).
  { destruct (H z (or_introl eq_refl)) as [E|E]; rewrite E; [| destruct (cell a z)]; reflexivity. }
  rewrite Hs. apply IH. intros z' Hz'. apply H. right. exact Hz'.
Qed.

Lemma sumR_nil : sumR [] = 0.
Proof. reflexivity. Qed.

Section PositiveWeights.

(** Spec 4.2: the weight lookup maps metric names to positive floats. *)
Variable w : weight_lookup.
Hypothesis w_pos : forall k x, In (k, x) w -> 0 < x.

Lemma weight_of_pos (m : string) : 0 < weight_of w m.
Proof.
  unfold weight_of. destruct (assoc m w) as [x|] eqn:E; [|lra].
  apply (w_pos m). apply assoc_In. exact E.
Qed.

Lemma weighted_sum_nonneg (a b : row) (ms : list string) : 0 <= weighted_sum_spec w a b ms.
Proof.
  unfold weighted_sum_spec. induction ms as [|m ms IH]; cbn [map];
    [rewrite sumR_nil; lra | rewrite sumR_cons].
  destruct (cell a (zcol m)) as [x|], (cell b (zcol m)) as [y|]; try lra.
  pose proof (weight_of_pos m). pose proof (pow2_ge_0 (x - y)). nra.
Qed.

Lemma included_weight_nonneg (a b : row) (ms : list string) : 0 <= included_weight w a b ms.
Proof.
  unfold included_weight. induction ms as [|m ms IH]; cbn [map];
    [rewrite sumR_nil; lra | rewrite sumR_cons].
  destruct (included a b m); [pose proof (weight_of_pos m)|]; lra.
Qed.

Lemma included_weight_pos (a b : row) (ms : list string) :
  (exists m, In m ms /\ included a b m = true) -> 0 < included_weight w a b ms.
Proof.
  intros [m [Hin Hinc]]. unfold included_weight.
  induction ms as [|m' ms IH]; [destruct Hin|]. cbn [map]. rewrite sumR_cons.
  destruct Hin as [E|Hin].
  - subst m'. rewrite Hinc. pose proof (weight_of_pos m).
    pose proof (included_weight_nonneg a b ms). unfold included_weight in *. lra.
  - specialize (IH Hin). destruct (included a b m'); [pose proof (weight_of_pos m')|]; lra.
Qed.

(** Claim C1.  For z-scored rows [a], [b] and the z-columns of metrics
    [ms] (names without an inner ["_z"], as every configured metric, see
    [configured_metrics_no_underscore_z]): a dimension missing on either side
    is skipped, each included one adds [weight * (a - b)^2] with the metric's
    weight (1.0 when absent from the lookup), and when at least one dimension
    is included the distance is the square root of that sum, not rescaled by
    the total weight. *)
Theorem calculate_distance_weighted_sum (a b : row) (ms : list string) :
  Forall (fun m => no_underscore_z m = true) ms ->
  (exists m, In m ms /\ included a b m = true) ->
  calculate_distance w a b (map zcol ms) = DFin (sqrt (weighted_sum_spec w a b ms)).
Proof.
  intros HF Hex. unfold calculate_distance.
  rewrite (distance_fold_spec w a b ms 0 0 HF).
  pose proof (included_weight_pos a b ms Hex) as Hpos.
  pose proof (weighted_sum_nonneg a b ms) as Hnn.
  destruct (Req_dec_T (0 + included_weight w a b ms) 0) as [E|_]; [lra|].
  unfold np_sqrt. destruct (Rlt_dec (0 + weighted_sum_spec w a b ms) 0) as [L|_]; [lra|].
  rewrite Rplus_0_l. reflexivity.
Qed.

End PositiveWeights.

(** Every configured metric name is free of ["_z"], so its z-column maps
    back to it in the weight lookup. *)
Lemma configured_metrics_no_underscore_z :
  Forall (fun m => no_underscore_z m = true)
         (PRIMARY_METRICS ++ PITCHER_PRIMARY_METRICS ++ PITCH_COMPARISON_METRICS).
Proof. repeat constructor. Qed.

(** Claim C9.  The distance is symmetric in its two rows, for every
    weight lookup and every list of dimensions. *)
Theorem calculate_distance_symmetric (w : weight_lookup) (a b : row) (dims : list string) :
  calculate_distance w a b dims = calculate_distance w b a dims.
Proof.
  unfold calculate_distance. rewrite distance_fold_sym. reflexivity.
Qed.

Lemma calculate_distance_no_overlap (w : weight_lookup) (a b : row) (dims : list string) :
  (forall z, In z dims -> cell a z = None \/ cell b z = None) ->
  calculate_distance w a b dims = DInf.
Proof.
  intro H. unfold calculate_distance. rewrite (distance_fold_none w a b dims (0, 0) H).
  destruct (Req_dec_T 0 0) as [_|N]; [reflexivity | contradiction].
Qed.

(** ** The ranking pipeline keeps only filtered, finite-distance rows *)

Lemma insert_by_distance_In (x y : Engine.scored) (l : list Engine.scored) :
  In y (Engine.insert_by_distance x l) -> y = x \/ In y l.
Proof.
  induction l as [|z l IH]; simpl; [intros [<-|[]]; left; reflexivity|].
  destruct (Rleb (Engine.sc_distance z) (Engine.sc_distance x)); simpl.
  - intros [<-|H]; [right; left; reflexivity|].
    destruct (IH H) as [E|E]; [left; exact E | right; right; exact E].
  - intros [<-|H]; [left; reflexivity | right; exact H].
Qed.

Lemma firstn_incl {A} (n : nat) (l : list A) (x : A) : In x (firstn n l) -> In x l.
Proof.
  revert l. induction n as [|n IH]; intros [|y l]; simpl; try tauto.
  intros [<-|H]; [left; reflexivity | right; exact (IH l H)].
Qed.

Lemma fold_insert_In (x : Engine.scored) (l acc : list Engine.scored) :
  In x (fold_left (fun acc y => Engine.insert_by_distance y acc) l acc) -> In x acc \/ In x l.
Proof.
  revert acc. induction l as [|y l IH]; intros acc Hin; simpl in *; [left; exact Hin|].
  destruct (IH _ Hin) as [Hacc|Hl]; [|right; right; exact Hl].
  destruct (insert_by_distance_In y x acc Hacc) as [E|E];
    [right; left; symmetry; exact E | left; exact E].
Qed.

Lemma nsmallest_incl (n : nat) (l : list Engine.scored) (x : Engine.scored) :
  In x (Engine.nsmallest n l) -> In x l.
Proof.
  unfold Engine.nsmallest. intro H. apply firstn_incl in H.
  destruct (fold_insert_In x l [] H) as [[]|Hl]. exact Hl.
Qed.

Lemma keep_finite_In (e : Engine.t) (target : row) (rows : list row) (sc : Engine.scored) :
  In sc (flat_map (Engine.keep_finite e target) rows) ->
  In (Engine.sc_row sc) rows
  /\ calculate_distance (Engine.weights e) target (Engine.sc_row sc) (Engine.z_columns e)
     = DFin (Engine.sc_distance sc).
Proof.
  rewrite in_flat_map. intros [c [Hc Hsc]]. unfold Engine.keep_finite in Hsc.
  destruct (calculate_distance (Engine.weights e) target c (Engine.z_columns e)) eqn:Ed;
    simpl in Hsc; try contradiction.
  destruct Hsc as [<-|[]]. simpl. split; [exact Hc | exact Ed].
Qed.

Lemma filter_by_pitcher_role_incl (idx : list string) (target : row) (c c' : table) :
  Engine.filter_by_pitcher_role idx target c = Ok c' ->
  tcols c' = tcols c /\ incl (trows c') (trows c).
Proof.
  unfold Engine.filter_by_pitcher_role.
  destruct (if mem "G" idx then cell target "G" else None) as [tg|];
  destruct (if mem "GS" idx then cell target "GS" else None) as [tgs|];
  try (intro H; injection H as <-; split; [reflexivity | apply incl_refl]).
  destruct (Req_dec_T tg 0); [intro H; injection H as <-; split; [reflexivity | apply incl_refl]|].
  destruct (negb (mem "G" (tcols c) && mem "GS" (tcols c)));
    [intro H; injection H as <-; split; [reflexivity | apply incl_refl]|].
  destruct (Rleb STARTER_GS_RATIO (tgs / tg)); [destruct (mem "IP" (tcols c))|];
    intro H; try discriminate; injection H as <-; simpl;
    (split; [reflexivity | intros x Hx; apply filter_In in Hx; apply Hx]).
Qed.

Lemma filter_candidates_by_metrics_incl (e : Engine.t) (c c' : table) :
  Engine.filter_candidates_by_metrics e c = Ok c' ->
  tcols c' = tcols c /\ incl (trows c') (trows c).
Proof.
  unfold Engine.filter_candidates_by_metrics.
  destruct (Engine.coverage_groups (Engine.is_batter e)) as [g1 g2].
  destruct (find _ _); [discriminate|].
  intro H; injection H as <-; simpl.
  split; [reflexivity | intros x Hx; apply filter_In in Hx; apply Hx].
Qed.

(** Every match ranked by [find_similar] is a row that passed the
    outcome-tolerance filter, at a finite distance from the target. *)
Lemma find_similar_matches_origin (e : Engine.t) (pid s : Z) (n : nat) (excl : bool)
    (rs : list Engine.scored) (sc : Engine.scored) :
  Engine.find_similar_matches e pid s n excl = Ok rs -> In sc rs ->
  exists target,
    find (Engine.target_mask pid s) (trows (Engine.dataset e)) = Some target
    /\ In (Engine.sc_row sc)
          (trows (Engine.sanity_filter e target
                    (Engine.candidate_pool (Engine.dataset e) pid s excl)))
    /\ calculate_distance (Engine.weights e) target (Engine.sc_row sc) (Engine.z_columns e)
       = DFin (Engine.sc_distance sc).
Proof.
  unfold Engine.find_similar_matches.
  destruct (find (Engine.target_mask pid s) (trows (Engine.dataset e))) as [target|];
    [|intro H; injection H as <-; intros []].
  set (c2 := Engine.sanity_filter e target
               (Engine.candidate_pool (Engine.dataset e) pid s excl)).
  intros H Hin. exists target. split; [reflexivity|].
  destruct (Engine.is_empty c2); [injection H as <-; destruct Hin|].
  destruct (if Engine.is_batter e then Ok c2
            else Engine.filter_by_pitcher_role (tcols (Engine.dataset e)) target c2)
    as [c3|err] eqn:E3; [|discriminate]. cbn [bind] in H.
  assert (I3 : incl (trows c3) (trows c2)).
  { destruct (Engine.is_batter e); [injection E3 as <-; apply incl_refl|].
    apply (filter_by_pitcher_role_incl _ _ _ _ E3). }
  destruct (Engine.is_empty c3); [injection H as <-; destruct Hin|].
  destruct (Engine.filter_candidates_by_metrics e c3) as [c4|err] eqn:E4; [|discriminate].
  cbn [bind] in H.
  destruct (filter_candidates_by_metrics_incl e c3 c4 E4) as [_ I4].
  destruct (Engine.is_empty c4); [injection H as <-; destruct Hin|].
  destruct (flat_map (Engine.keep_finite e target) (trows c4)) as [|k ks] eqn:Ek;
    injection H as <-; [destruct Hin|].
  apply nsmallest_incl in Hin. rewrite <- Ek in Hin.
  destruct (keep_finite_In e target (trows c4) sc Hin) as [Hr Hd].
  split; [apply I3, I4, Hr | exact Hd].
Qed.

Lemma find_none_mask (pid s : Z) (rows : list row) :
  (forall r, In r rows -> ~ (mlbam_id r = pid /\ season r = s)) ->
  find (Engine.target_mask pid s) rows = None.
Proof.
  intro H. destruct (find (Engine.target_mask pid s) rows) as [r|] eqn:E; [|reflexivity].
  apply find_some in E as [Hr Hm]. unfold Engine.target_mask in Hm.
  apply andb_prop in Hm as [H1 H2]. apply Z.eqb_eq in H1, H2.
  exfalso. exact (H r Hr (conj H1 H2)).
Qed.

(** Claim C4.  A candidate sharing no non-missing z-dimension with the
    target gets the [float("inf")] distance, and no row whose distance to the
    target is that sentinel is among the matches ranked by [find_similar]
    (whose results are [map make_result] of these matches). *)
Theorem incomparable_never_ranked (e : Engine.t) (pid s : Z) (n : nat) (excl : bool)
    (target c : row) (rs : list Engine.scored) :
  find (Engine.target_mask pid s) (trows (Engine.dataset e)) = Some target ->
  Engine.find_similar_matches e pid s n excl = Ok rs ->
  (forall z, In z (Engine.z_columns e) -> cell target z = None \/ cell c z = None) ->
  calculate_distance (Engine.weights e) target c (Engine.z_columns e) = DInf
  /\ (forall c', calculate_distance (Engine.weights e) target c' (Engine.z_columns e) = DInf ->
                 ~ In c' (map Engine.sc_row rs)).
Proof.
  intros Hf Hm Hno. split; [apply calculate_distance_no_overlap; exact Hno|].
  intros c' Hinf Hin. apply in_map_iff in Hin as [sc [<- Hsc]].
  destruct (find_similar_matches_origin e pid s n excl rs sc Hm Hsc) as [t [Ht [_ Hd]]].
  rewrite Hf in Ht. injection Ht as <-. rewrite Hinf in Hd. discriminate.
Qed.

(** Claim C7.  When no row has the queried (player id, season),
    [find_similar] returns [Ok []] (an empty list, no exception) and
    [get_player_season] returns [None]. *)
Theorem missing_target_not_an_error (py_round : R -> nat -> R)
    (calculate_for_player_season : Z -> Z -> option R)
    (e : Engine.t) (pid s : Z) (n : nat) (excl : bool) :
  (forall r, In r (trows (Engine.dataset e)) -> ~ (mlbam_id r = pid /\ season r = s)) ->
  Engine.find_similar py_round calculate_for_player_season e pid s n excl = Ok []
  /\ Engine.get_player_season calculate_for_player_season e pid s = None.
Proof.
  intro H. pose proof (find_none_mask pid s _ H) as E.
  unfold Engine.find_similar, Engine.get_player_season, Engine.find_similar_matches.
  rewrite E. split; reflexivity.
Qed.

(** Claim C10.  When the sanity-check column exists and the target's value
    is present, a row whose own sanity-check value is missing is dropped by
    the outcome-tolerance filter and is never among the ranked matches. *)
Theorem missing_sanity_never_ranked (e : Engine.t) (pid s : Z) (n : nat) (excl : bool)
    (target c : row) (ts : R) (rs : list Engine.scored) :
  mem (Engine.sanity_metric e) (tcols (Engine.dataset e)) = true ->
  find (Engine.target_mask pid s) (trows (Engine.dataset e)) = Some target ->
  cell target (Engine.sanity_metric e) = Some ts ->
  Engine.find_similar_matches e pid s n excl = Ok rs ->
  cell c (Engine.sanity_metric e) = None ->
  ~ In c (map Engine.sc_row rs).
Proof.
  intros Hcol Hf Ht Hm Hc Hin. apply in_map_iff in Hin as [sc [<- Hsc]].
  destruct (find_similar_matches_origin e pid s n excl rs sc Hm Hsc) as [t [Ht' [Hr _]]].
  rewrite Hf in Ht'. injection Ht' as <-.
  unfold Engine.sanity_filter in Hr.
  assert (Hpool : tcols (Engine.candidate_pool (Engine.dataset e) pid s excl)
                  = tcols (Engine.dataset e)).
  { unfold Engine.candidate_pool. destruct excl; reflexivity. }
  rewrite Hpool, Hcol, Ht in Hr. simpl in Hr.
  apply filter_In in Hr as [_ Hp]. rewrite Hc in Hp. discriminate.
Qed.

(** Claim C6.  Both engines refuse construction, with a [ValueError], when
    the table carries none of their configured comparison metrics: the
    season engine for its config's primary metrics (the batter config by
    default), the pitch engine for [PITCH_COMPARISON_METRICS]. *)
Theorem construction_fails_without_metrics (df : table) (w : option weight_lookup)
    (tol : option R) (config : option metric_config) :
  ((forall m, In m (primary_metrics (Engine.config_or_default config)) -> ~ In m (tcols df)) ->
   Engine.create df w tol config = Err (ValueError "Dataset missing all primary metrics"))
  /\ ((forall m, In m PITCH_COMPARISON_METRICS -> ~ In m (tcols df)) ->
      PitchEngine.create df = Err (ValueError "Dataset missing all pitch comparison metrics")).
Proof.
  split; intro H.
  - unfold Engine.create, Engine.prepare_dataset.
    rewrite filter_all_false; [reflexivity|].
    intros m Hm. destruct (mem m (tcols df)) eqn:E; [|reflexivity].
    apply mem_In in E. exfalso. exact (H m Hm E).
  - unfold PitchEngine.create.
    rewrite filter_all_false; [reflexivity|].
    intros m Hm. destruct (mem m (tcols df)) eqn:E; [|reflexivity].
    apply mem_In in E. exfalso. exact (H m Hm E).
Qed.

(** ** Pitcher role filter *)

Lemma cand_is_starter_spec (c : row) : Engine.cand_is_starter c = is_starter_spec c.
Proof.
  unfold Engine.cand_is_starter, is_starter_spec, role_by_ratio, Engine.fillna0,
    STARTER_GS_RATIO.
  destruct (cell c "G") as [g|], (cell c "GS") as [gs|].
  - destruct (Req_dec_T g 0); [reflexivity|]. destruct (Rleb (1 / 2) (gs / g)); reflexivity.
  - destruct (Req_dec_T g 0) as [|N]; [reflexivity|].
    unfold Rleb. destruct (Rle_dec (1 / 2) (0 / g)) as [L|]; [|reflexivity].
    exfalso. unfold Rdiv in L. rewrite Rmult_0_l in L. lra.
  - destruct (Req_dec_T 0 0) as [|N]; [reflexivity | contradiction].
  - destruct (Req_dec_T 0 0) as [|N]; [reflexivity | contradiction].
Qed.

Lemma ip_floor_spec (c : row) :
  Rleb MIN_STARTER_COMP_IP (Engine.fillna0 (cell c "IP")) = meets_ip_floor c.
Proof.
  unfold meets_ip_floor, Engine.fillna0, MIN_STARTER_COMP_IP.
  destruct (cell c "IP") as [ip|]; [reflexivity|].
  unfold Rleb. destruct (Rle_dec 80 0); [lra | reflexivity].
Qed.

(** Claim C5.  For candidates drawn from the dataset (same columns as the
    target's index): when the target's role is undetermined the filter
    returns the candidates unchanged; for a starter target (and the pitcher
    table's IP column) the survivors are exactly the starters meeting the
    80-inning floor; for a reliever target, exactly the non-starters.  A
    candidate is a starter exactly when GS / G >= 0.5. *)
Theorem pitcher_role_filter (cols : list string) (target : row) (cands : table) :
  tcols cands = cols ->
  (target_role cols target = None ->
   Engine.filter_by_pitcher_role cols target cands = Ok cands)
  /\ (target_role cols target = Some true -> mem "IP" cols = true ->
      Engine.filter_by_pitcher_role cols target cands
      = Ok (filter_rows (fun c => is_starter_spec c && meets_ip_floor c) cands))
  /\ (target_role cols target = Some false ->
      Engine.filter_by_pitcher_role cols target cands
      = Ok (filter_rows (fun c => negb (is_starter_spec c)) cands)).
Proof.
  intro Hc. unfold target_role, known, role_by_ratio, Engine.filter_by_pitcher_role.
  rewrite Hc.
  destruct (mem "G" cols) eqn:EG;
    [| repeat split; intros; try discriminate; reflexivity].
  destruct (mem "GS" cols) eqn:EGS;
    [| destruct (cell target "G"); repeat split; intros; try discriminate; reflexivity].
  destruct (cell target "G") as [tg|];
    [| repeat split; intros; try discriminate; reflexivity].
  destruct (cell target "GS") as [tgs|];
    [| repeat split; intros; try discriminate; reflexivity].
  destruct (Req_dec_T tg 0); [repeat split; intros; try discriminate; reflexivity|].
  unfold STARTER_GS_RATIO. simpl.
  repeat split; [discriminate | |].
  - intros Hr HIP. injection Hr as Hr. rewrite Hr, HIP.
    unfold filter_rows. f_equal. f_equal. apply filter_ext. intro c.
    rewrite cand_is_starter_spec, ip_floor_spec. reflexivity.
  - intro Hr. injection Hr as Hr. rewrite Hr.
    unfold filter_rows. f_equal. f_equal. apply filter_ext. intro c.
    rewrite cand_is_starter_spec. reflexivity.
Qed.

(** The spec's role-match scenario: a 30 G / 30 GS target, a 60 G / 2 GS
    reliever and a 90-inning starter; only the starter survives. *)
Lemma pitcher_role_filter_witness :
  Engine.filter_by_pitcher_role Examples.role_cols Examples.role_target Examples.role_cands
  = Ok (mkTable Examples.role_cols [Examples.role_starter]).
Proof.
  destruct (pitcher_role_filter Examples.role_cols Examples.role_target Examples.role_cands
              eq_refl) as [_ [H _]].
  rewrite H.
  - unfold filter_rows. simpl. unfold is_starter_spec, meets_ip_floor, role_by_ratio. simpl.
    destruct (Req_dec_T 60 0) as [E|_]; [lra|].
    destruct (Req_dec_T 30 0) as [E|_]; [lra|].
    unfold Rleb.
    destruct (Rle_dec (1 / 2) (2 / 60)) as [L|_]; [lra|].
    destruct (Rle_dec (1 / 2) (30 / 30)) as [_|L]; [|lra].
    destruct (Rle_dec 80 90) as [_|L]; [|lra].
    reflexivity.
  - unfold target_role, known, role_by_ratio. simpl.
    destruct (Req_dec_T 30 0) as [E|_]; [lra|].
    unfold Rleb. destruct (Rle_dec (1 / 2) (30 / 30)) as [_|L]; [reflexivity|lra].
  - reflexivity.
Defined.

(** ** Within-season percentiles *)

Ltac minmax_cases :=
  repeat match goal with
  | |- context [Rmin ?a ?b] =>
      destruct (Rle_lt_dec a b);
      [rewrite (Rmin_left a b) by lra | rewrite (Rmin_right a b) by lra]
  | |- context [Rmax ?a ?b] =>
      destruct (Rle_lt_dec a b);
      [rewrite (Rmax_right a b) by lra | rewrite (Rmax_left a b) by lra]
  end.

Lemma clamp_flip (p : R) : clamp_1_99 (100 - p) = 100 - clamp_1_99 p.
Proof.
  unfold clamp_1_99.
  minmax_cases; lra.
Qed.

Lemma clamp_is_99 (p : R) : clamp_1_99 p = 99 <-> 99 <= p.
Proof.
  unfold clamp_1_99.
  minmax_cases;
    split; intro; lra.
Qed.

Lemma calculate_percentile_formula (e : Engine.t) (m : string) (s : Z) (x : R) (hib : bool) :
  In m (tcols (Engine.dataset e)) ->
  season_values (Engine.dataset e) m s <> [] ->
  Engine.calculate_percentile e m (Some x) s hib = percentile_spec (Engine.dataset e) m s x hib.
Proof.
  intros Hm Hne. apply mem_In in Hm.
  unfold Engine.calculate_percentile, percentile_spec. rewrite Hm. simpl negb. cbv iota.
  unfold season_values in *.
  destruct (dropna (map (fun r => cell r m)
                        (filter (fun r => Z.eqb (season r) s) (trows (Engine.dataset e)))))
    as [|y ys]; [contradiction|].
  reflexivity.
Qed.

Lemma calculate_percentile_flip (e : Engine.t) (m : string) (v : value) (s : Z) :
  Engine.calculate_percentile e m v s false = 100 - Engine.calculate_percentile e m v s true.
Proof.
  unfold Engine.calculate_percentile.
  destruct v as [x|]; [|lra].
  destruct (negb (mem m (tcols (Engine.dataset e)))); [lra|].
  destruct (dropna _) as [|y ys]; [lra|].
  apply clamp_flip.
Qed.

(** Claim C2 (as amended).  Within a season with a non-missing value of a
    present metric: the percentile is the clamp to [1, 99] of
    (count strictly below) / (count non-missing) * 100, flipped to 100 - p
    for lower-is-better metrics; the season minimum gets 1; the season
    maximum gets 99 exactly when at least 99% of the values lie strictly
    below it; and the flipped percentile is always 100 - p. *)
Theorem percentile_within_season (e : Engine.t) (m : string) (s : Z) :
  In m (tcols (Engine.dataset e)) ->
  season_values (Engine.dataset e) m s <> [] ->
  (forall x hib, Engine.calculate_percentile e m (Some x) s hib
                 = percentile_spec (Engine.dataset e) m s x hib)
  /\ (forall vmin, In vmin (season_values (Engine.dataset e) m s) ->
        (forall y, In y (season_values (Engine.dataset e) m s) -> vmin <= y) ->
        Engine.calculate_percentile e m (Some vmin) s true = 1)
  /\ (forall vmax, In vmax (season_values (Engine.dataset e) m s) ->
        (forall y, In y (season_values (Engine.dataset e) m s) -> y <= vmax) ->
        (Engine.calculate_percentile e m (Some vmax) s true = 99
         <-> 99 <= INR (List.length (filter (fun y => Rltb y vmax)
                                           (season_values (Engine.dataset e) m s)))
                   / INR (List.length (season_values (Engine.dataset e) m s)) * 100))
  /\ (forall v, Engine.calculate_percentile e m v s false
                = 100 - Engine.calculate_percentile e m v s true).
Proof.
  intros Hm Hne. split; [|split; [|split]].
  - intros x hib. apply calculate_percentile_formula; assumption.
  - intros vmin _ Hmin. rewrite calculate_percentile_formula by assumption.
    unfold percentile_spec.
    rewrite (filter_all_false (fun y => Rltb y vmin)).
    + simpl List.length. unfold clamp_1_99. simpl INR.
      unfold Rdiv. rewrite Rmult_0_l, Rmult_0_l.
          minmax_cases; lra.
    + intros y Hy. unfold Rltb. destruct (Rlt_dec y vmin) as [L|]; [|reflexivity].
      specialize (Hmin y Hy). lra.
  - intros vmax _ _. rewrite calculate_percentile_formula by assumption.
    unfold percentile_spec. apply clamp_is_99.
  - intro v. apply calculate_percentile_flip.
Qed.

(** The season minimum of the two-row table gets percentile 1. *)
Lemma percentile_within_season_witness :
  Engine.calculate_percentile Examples.pct_engine "k_pct" (Some 1) 2024 true = 1.
Proof.
  destruct (percentile_within_season Examples.pct_engine "k_pct" 2024) as [_ [Hmin _]].
  - simpl. left. reflexivity.
  - simpl. discriminate.
  - apply Hmin.
    + simpl. left. reflexivity.
    + simpl. intros y [<-|[<-|[]]]; lra.
Defined.

(** Counterexample to claim C2: in a season whose values are 1 and 2, the
    maximum 2 gets percentile 50, not 99. *)
Lemma percentile_max_not_99 :
  (forall y, In y (season_values Examples.pct_table "k_pct" 2024) -> y <= 2)
  /\ Engine.calculate_percentile Examples.pct_engine "k_pct" (Some 2) 2024 true = 50
  /\ Engine.calculate_percentile Examples.pct_engine "k_pct" (Some 2) 2024 true <> 99.
Proof.
  assert (H : Engine.calculate_percentile Examples.pct_engine "k_pct" (Some 2) 2024 true = 50).
  { unfold Engine.calculate_percentile. simpl. unfold Rltb.
    destruct (Rlt_dec 1 2) as [_|L]; [|lra].
    destruct (Rlt_dec 2 2) as [L|_]; [lra|]. simpl.
    replace (1 / (1 + 1) * 100) with 50 by lra.
    minmax_cases; lra. }
  split; [|split].
  - simpl. intros y [<-|[<-|[]]]; lra.
  - exact H.
  - rewrite H. lra.
Qed.

(** ** The normalizer *)

(** A loop reaches a property at some iteration and keeps it afterwards. *)
Lemma fold_left_reaches {A B} (f : A -> B -> A) (Inv P : A -> Prop) (b0 : B) :
  (forall a b, Inv a -> Inv (f a b)) ->
  (forall a, Inv a -> P (f a b0)) ->
  (forall a b, Inv a -> P a -> P (f a b)) ->
  forall l a, Inv a -> (P a \/ In b0 l) -> P (fold_left f l a).
Proof.
  intros Hinv Hest Hkeep l. induction l as [|b l IH]; intros a Ha HP; simpl.
  - destruct HP as [HP|[]]. exact HP.
  - apply IH; [apply Hinv; exact Ha|].
    destruct HP as [HP|[<-|Hin]].
    + left. apply Hkeep; assumption.
    + left. apply Hest. exact Ha.
    + right. exact Hin.
Qed.

Lemma string_length_append (a b : string) :
  String.length (String.append a b) = (String.length a + String.length b)%nat.
Proof. induction a as [|c a IH]; simpl; [reflexivity|]. rewrite IH. reflexivity. Qed.

Lemma append_cancel_r (a b s : string) : String.append a s = String.append b s -> a = b.
Proof.
  revert b. induction a as [|c a IH]; intros [|d b] H; simpl in H.
  - reflexivity.
  - apply (f_equal String.length) in H. simpl in H.
    rewrite string_length_append in H. lia.
  - apply (f_equal String.length) in H. simpl in H.
    rewrite string_length_append in H. lia.
  - injection H as -> H. f_equal. apply IH. exact H.
Qed.

Lemma zcol_inj (a b : string) : zcol a = zcol b -> a = b.
Proof. unfold zcol. apply append_cancel_r. Qed.

Lemma assoc_key_In {A} (k : string) (v : A) (l : list (string * A)) :
  assoc k l = Some v -> In k (map fst l).
Proof. intro H. apply assoc_In in H. apply (in_map fst) in H. exact H. Qed.

Lemma dropna_In (x : R) (vs : list value) : In (Some x) vs -> In x (dropna vs).
Proof.
  induction vs as [|[y|] vs IH]; simpl; [tauto| |].
  - intros [E|H]; [injection E as ->; left; reflexivity | right; apply IH; exact H].
  - intros [E|H]; [discriminate | apply IH; exact H].
Qed.

Lemma set_column_rows_length (t : table) (nm : string) (vs : list value) :
  List.length vs = List.length (trows t) ->
  List.length (trows (set_column t nm vs)) = List.length (trows t).
Proof.
  unfold set_column. simpl. generalize (trows t) as rs. intro rs. revert vs.
  induction rs as [|r rs IH]; intros [|v vs] H; simpl in *; try discriminate; [reflexivity|].
  f_equal. apply IH. lia.
Qed.

Lemma set_column_same (t : table) (nm : string) (vs : list value) :
  List.length vs = List.length (trows t) -> column (set_column t nm vs) nm = vs.
Proof.
  unfold column, set_column. simpl. generalize (trows t) as rs. intro rs. revert vs.
  induction rs as [|r rs IH]; intros [|v vs] H; simpl in *; try discriminate; [reflexivity|].
  f_equal.
  - unfold cell, row_set. simpl. rewrite assoc_dict_set_same. reflexivity.
  - apply IH. lia.
Qed.

Lemma set_column_other (t : table) (nm c : string) (vs : list value) :
  c <> nm -> List.length vs = List.length (trows t) ->
  column (set_column t nm vs) c = column t c.
Proof.
  intro Hne. unfold column, set_column. simpl. generalize (trows t) as rs. intro rs. revert vs.
  induction rs as [|r rs IH]; intros [|v vs] H; simpl in *; try discriminate; [reflexivity|].
  f_equal.
  - unfold cell, row_set. simpl. rewrite assoc_dict_set_other by exact Hne. reflexivity.
  - apply IH. lia.
Qed.

Lemma set_column_cols (t : table) (nm x : string) (vs : list value) :
  In x (tcols t) \/ x = nm -> In x (tcols (set_column t nm vs)).
Proof.
  unfold set_column. simpl. intro H.
  destruct (mem nm (tcols t)) eqn:E.
  - apply mem_In in E. destruct H as [H| ->]; assumption.
  - apply in_or_app. destruct H as [H| ->]; [left; exact H | right; left; reflexivity].
Qed.

Lemma column_length (df : table) (c : string) : List.length (column df c) = List.length (trows df).
Proof. unfold column. apply length_map. Qed.

Lemma floor_std_nonzero (sd : value) : Normalizer.floor_std sd <> Some 0.
Proof.
  destruct sd as [s|]; simpl; [|discriminate].
  destruct (Req_dec_T s 0) as [_|Hs].
  - intro E. injection E. lra.
  - intro E. injection E. exact Hs.
Qed.

Lemma floor_std_zero : Normalizer.floor_std (Some 0) = Some 1.
Proof. simpl. destruct (Req_dec_T 0 0) as [_|H]; [reflexivity|]. contradiction. Qed.

Lemma sumR_sq_nonneg (m : R) (xs : list R) : 0 <= sumR (map (fun x => (x - m) ^ 2) xs).
Proof.
  induction xs as [|x xs IH]; cbn [map]; [rewrite sumR_nil; lra|].
  rewrite sumR_cons. pose proof (pow2_ge_0 (x - m)). lra.
Qed.

Lemma sumR_sq_zero (m : R) (xs : list R) :
  sumR (map (fun x => (x - m) ^ 2) xs) = 0 -> forall x, In x xs -> x = m.
Proof.
  induction xs as [|y xs IH]; intros H x Hx; [destruct Hx|].
  cbn [map] in H. rewrite sumR_cons in H.
  pose proof (pow2_ge_0 (y - m)). pose proof (sumR_sq_nonneg m xs).
  destruct Hx as [<-|Hx].
  - assert (E : (y - m) ^ 2 = 0) by lra.
    simpl in E. rewrite Rmult_1_r in E. apply Rmult_integral in E. lra.
  - apply IH; [lra | exact Hx].
Qed.

(** A zero sample standard deviation means every value equals the mean. *)
Lemma pd_std_zero_const (xs : list R) :
  pd_std xs = Some 0 -> exists m, pd_mean xs = Some m /\ forall x, In x xs -> x = m.
Proof.
  unfold pd_std, pd_mean.
  destruct (Nat.ltb_spec (List.length xs) 2) as [Hl|Hl]; [discriminate|].
  intro H. injection H as H.
  destruct xs as [|x0 xs0]; [simpl in Hl; lia|].
  set (m := sumR (x0 :: xs0) / INR (List.length (x0 :: xs0))) in *.
  exists m. split; [reflexivity|].
  set (S := sumR (map (fun x => (x - m) ^ 2) (x0 :: xs0))) in *.
  assert (HS : 0 <= S) by apply sumR_sq_nonneg.
  assert (Hd : 0 < INR (List.length (x0 :: xs0) - 1)) by (apply lt_0_INR; lia).
  apply sqrt_eq_0 in H.
  2:{ unfold Rdiv. apply Rmult_le_pos; [exact HS|]. left. apply Rinv_0_lt_compat. exact Hd. }
  assert (HS0 : S = 0).
  { unfold Rdiv in H. apply Rmult_integral in H. destruct H as [H|H]; [exact H|].
    exfalso. apply (Rinv_neq_0_compat (INR (List.length (x0 :: xs0) - 1))); lra. }
  apply sumR_sq_zero. exact HS0.
Qed.

(** After [fit], a requested column present in the table holds the mean
    and the floored standard deviation of its non-missing values. *)
Lemma fit_stats (n : Normalizer.t) (df : table) (cols : list string) (col : string) :
  In col cols -> In col (tcols df) ->
  assoc col (Normalizer.means (Normalizer.fit n df cols)) = Some (pd_mean (dropna (column df col)))
  /\ assoc col (Normalizer.stds (Normalizer.fit n df cols))
     = Some (Normalizer.floor_std (pd_std (dropna (column df col)))).
Proof.
  intros Hc Hd. unfold Normalizer.fit. simpl.
  apply (fold_left_reaches (Normalizer.fit_col df) (fun _ => True)
           (fun n => assoc col (Normalizer.means n) = Some (pd_mean (dropna (column df col)))
                     /\ assoc col (Normalizer.stds n)
                        = Some (Normalizer.floor_std (pd_std (dropna (column df col))))) col);
    [auto | | | exact I | right; exact Hc].
  - intros a _. unfold Normalizer.fit_col.
    rewrite (proj2 (mem_In _ _) Hd). simpl. rewrite !assoc_dict_set_same. auto.
  - intros a b _ [H1 H2]. unfold Normalizer.fit_col.
    destruct (mem b (tcols df)) eqn:Eb; [|split; assumption]. simpl.
    destruct (String.eqb_spec col b) as [->|Hne].
    + rewrite !assoc_dict_set_same. auto.
    + rewrite !assoc_dict_set_other by exact Hne. auto.
Qed.

Lemma transform_some (n : Normalizer.t) (df : table) (c : string) (cs : list string) :
  Normalizer.fitted n = true ->
  Normalizer.transform n df (Some (c :: cs)) = Ok (fold_left (Normalizer.transform_col n df) (c :: cs) df).
Proof. intro H. unfold Normalizer.transform. rewrite H. reflexivity. Qed.

(** [fit_transform] writes, for each requested column present in the
    table, the z column [(x - mean) / std] computed from the fitted stats. *)
Lemma fit_transform_column (n : Normalizer.t) (df : table) (cols : list string) (col : string) :
  In col cols -> In col (tcols df) ->
  exists out,
    Normalizer.transform (Normalizer.fit n df cols) df (Some cols) = Ok out
    /\ In (zcol col) (tcols out)
    /\ column out (zcol col)
       = map (Normalizer.zscore (pd_mean (dropna (column df col)))
                                (Normalizer.floor_std (pd_std (dropna (column df col)))))
             (column df col).
Proof.
  intros Hc Hd. destruct (fit_stats n df cols col Hc Hd) as [Hm Hs].
  destruct cols as [|c cs]; [destruct Hc|].
  set (n' := Normalizer.fit n df (c :: cs)) in *.
  set (V := map (Normalizer.zscore (pd_mean (dropna (column df col)))
                   (Normalizer.floor_std (pd_std (dropna (column df col))))) (column df col)).
  exists (fold_left (Normalizer.transform_col n' df) (c :: cs) df).
  split; [apply transform_some; reflexivity|].
  set (Inv := fun res : table => List.length (trows res) = List.length (trows df)).
  assert (Hinv : forall res b, Inv res -> Inv (Normalizer.transform_col n' df res b)).
  { intros res b H. unfold Normalizer.transform_col.
    destruct (mem b (tcols df) && mem b (map fst (Normalizer.means n'))); [|exact H].
    destruct (assoc b (Normalizer.means n')), (assoc b (Normalizer.stds n')); try exact H.
    unfold Inv in *. rewrite set_column_rows_length; [exact H|].
    rewrite length_map, column_length. symmetry. exact H. }
  assert (Hest : forall res, Inv res ->
            In (zcol col) (tcols (Normalizer.transform_col n' df res col))
            /\ column (Normalizer.transform_col n' df res col) (zcol col) = V).
  { intros res H. unfold Normalizer.transform_col.
    rewrite (proj2 (mem_In _ _) Hd), (proj2 (mem_In _ _) (assoc_key_In _ _ _ Hm)).
    simpl andb. rewrite Hm, Hs. split.
    - apply set_column_cols. right. reflexivity.
    - apply set_column_same. unfold Inv, V in *. rewrite length_map, column_length. symmetry. exact H. }
  apply (fold_left_reaches (Normalizer.transform_col n' df) Inv
           (fun res => In (zcol col) (tcols res) /\ column res (zcol col) = V) col);
    [exact Hinv | exact Hest | | reflexivity | right; exact Hc].
  intros res b H [H1 H2].
  destruct (String.eqb_spec b col) as [->|Hne]; [apply Hest; exact H|].
  unfold Normalizer.transform_col.
  destruct (mem b (tcols df) && mem b (map fst (Normalizer.means n'))); [|split; assumption].
  destruct (assoc b (Normalizer.means n')), (assoc b (Normalizer.stds n')); try (split; assumption).
  split.
  - apply set_column_cols. left. exact H1.
  - rewrite set_column_other; [exact H2 | |].
    + intro E. apply Hne. symmetry. apply zcol_inj. exact E.
    + unfold Inv in H. rewrite length_map, column_length. symmetry. exact H.
Qed.

(** Claim C8.  When a requested column's non-missing values have standard
    deviation zero, [fit_transform] stores 1.0 as its standard deviation;
    no column fitted by the call has a stored standard deviation of zero;
    and the column's z scores are 0 for every non-missing value (missing
    values stay missing). *)
Theorem zero_std_floored (n : Normalizer.t) (df : table) (cols : list string) (col : string) :
  In col cols -> In col (tcols df) ->
  pd_std (dropna (column df col)) = Some 0 ->
  assoc col (Normalizer.stds (fst (Normalizer.fit_transform n df cols))) = Some (Some 1)
  /\ (forall c, In c cols -> In c (tcols df) ->
        assoc c (Normalizer.stds (fst (Normalizer.fit_transform n df cols))) <> Some (Some 0))
  /\ exists out, snd (Normalizer.fit_transform n df cols) = Ok out
       /\ In (zcol col) (tcols out)
       /\ column out (zcol col)
          = map (fun v : value => match v with Some _ => Some 0 | None => None end) (column df col).
Proof.
  intros Hc Hd Hz. unfold Normalizer.fit_transform. simpl fst. simpl snd.
  split; [|split].
  - rewrite (proj2 (fit_stats n df cols col Hc Hd)), Hz, floor_std_zero. reflexivity.
  - intros c Hc' Hd'. rewrite (proj2 (fit_stats n df cols c Hc' Hd')).
    intro E. injection E. apply floor_std_nonzero.
  - destruct (fit_transform_column n df cols col Hc Hd) as [out [Ho [Hin Hcol]]].
    exists out. split; [exact Ho|]. split; [exact Hin|].
    rewrite Hcol, Hz, floor_std_zero.
    destruct (pd_std_zero_const _ Hz) as [m [Hmean Hall]]. rewrite Hmean.
    apply map_ext_in. intros [x|] Hx; simpl; [|reflexivity].
    rewrite (Hall x (dropna_In x _ Hx)). f_equal. unfold Rdiv. ring.
Qed.

(** A column of two equal values: its standard deviation is stored as 1. *)
Lemma zero_std_floored_witness :
  assoc "k_pct" (Normalizer.stds (fst (Normalizer.fit_transform Normalizer.init
                                         Examples.flat_table ["k_pct"%string]))) = Some (Some 1).
Proof.
  destruct (zero_std_floored Normalizer.init Examples.flat_table ["k_pct"%string] "k_pct")
    as [H _].
  - left. reflexivity.
  - left. reflexivity.
  - unfold pd_std. simpl. f_equal. transitivity (sqrt 0); [f_equal; field | apply sqrt_0].
  - exact H.
Defined.

(** Claim C3 (as amended).  A requested column that is present but has no
    non-missing value is not skipped: [fit] stores NaN as its mean and
    standard deviation, it is listed among the fitted columns, and
    [transform] adds its z column with every entry missing. *)
Theorem empty_column_fitted_as_nan (n : Normalizer.t) (df : table) (cols : list string) (col : string) :
  In col cols -> In col (tcols df) -> dropna (column df col) = [] ->
  assoc col (Normalizer.means (Normalizer.fit n df cols)) = Some None
  /\ assoc col (Normalizer.stds (Normalizer.fit n df cols)) = Some None
  /\ In col (Normalizer.fitted_columns (Normalizer.fit n df cols))
  /\ exists out, Normalizer.transform (Normalizer.fit n df cols) df (Some cols) = Ok out
       /\ In (zcol col) (tcols out)
       /\ column out (zcol col) = map (fun _ => None) (column df col).
Proof.
  intros Hc Hd He. destruct (fit_stats n df cols col Hc Hd) as [Hm Hs].
  rewrite He in Hm, Hs. simpl in Hm, Hs.
  split; [exact Hm|]. split; [exact Hs|]. split.
  - unfold Normalizer.fitted_columns. apply (assoc_key_In _ _ _ Hm).
  - destruct (fit_transform_column n df cols col Hc Hd) as [out [Ho [Hin Hcol]]].
    exists out. split; [exact Ho|]. split; [exact Hin|].
    rewrite Hcol, He. apply map_ext. intros [x|]; reflexivity.
Qed.

(** An all-missing column is fitted with a NaN mean. *)
Lemma empty_column_fitted_as_nan_witness :
  assoc "k_pct" (Normalizer.means (Normalizer.fit Normalizer.init Examples.nan_table ["k_pct"%string]))
  = Some None.
Proof.
  destruct (empty_column_fitted_as_nan Normalizer.init Examples.nan_table ["k_pct"%string] "k_pct")
    as [H _].
  - left. reflexivity.
  - left. reflexivity.
  - reflexivity.
  - exact H.
Defined.

(** Counterexample to claim C3: an all-missing column is listed among the
    fitted columns, and [transform] produces a z column for it. *)
Lemma empty_column_still_fitted :
  In "k_pct"%string (Normalizer.fitted_columns
                (Normalizer.fit Normalizer.init Examples.nan_table ["k_pct"%string]))
  /\ exists out,
       Normalizer.transform (Normalizer.fit Normalizer.init Examples.nan_table ["k_pct"%string])
                            Examples.nan_table (Some ["k_pct"%string]) = Ok out
       /\ In "k_pct_z"%string (tcols out).
Proof.
  split.
  - simpl. left. reflexivity.
  - eexists. split; [reflexivity|]. simpl. right. left. reflexivity.
Qed.

(** ** Witnesses of the remaining claims *)

(** One shared dimension with weight 1: the distance is the square root of
    the weighted squared difference. *)
Lemma calculate_distance_weighted_sum_witness :
  calculate_distance [("k_pct"%string, 1)]
    (Examples.prow 1 [("k_pct_z"%string, Some 1)]) (Examples.prow 2 [("k_pct_z"%string, Some 3)])
    (map zcol ["k_pct"%string])
  = DFin (sqrt (weighted_sum_spec [("k_pct"%string, 1)]
                  (Examples.prow 1 [("k_pct_z"%string, Some 1)])
                  (Examples.prow 2 [("k_pct_z"%string, Some 3)]) ["k_pct"%string])).
Proof.
  apply calculate_distance_weighted_sum.
  - intros k x [E|[]]. injection E as _ <-. lra.
  - constructor; [reflexivity | constructor].
  - exists "k_pct"%string. split; [left; reflexivity | reflexivity].
Defined.

(** A candidate with no z values is incomparable with the target. *)
Lemma incomparable_never_ranked_witness :
  calculate_distance (Engine.weights Examples.sanity_engine) Examples.sanity_target
    Examples.sanity_other (Engine.z_columns Examples.sanity_engine) = DInf.
Proof.
  apply (incomparable_never_ranked Examples.sanity_engine 20 2024 5 true
           Examples.sanity_target Examples.sanity_other []).
  - reflexivity.
  - vm_compute. reflexivity.
  - intros z [<-|[]]. right. reflexivity.
Defined.

(** An empty population: querying any identity yields no result and no error. *)
Lemma missing_target_not_an_error_witness :
  Engine.find_similar (fun x _ => x) (fun _ _ => None)
    (Examples.engine_of (mkTable [] []) true []) 7 2024 5 true = Ok [].
Proof.
  apply (missing_target_not_an_error (fun x _ => x) (fun _ _ => None)
           (Examples.engine_of (mkTable [] []) true []) 7 2024 5 true).
  intros r [].
Defined.

(** The candidate without an xwoba value is not among the ranked matches. *)
Lemma missing_sanity_never_ranked_witness :
  ~ In Examples.sanity_other []
    /\ Engine.find_similar_matches Examples.sanity_engine 20 2024 5 true = Ok [].
Proof.
  split.
  - apply (missing_sanity_never_ranked Examples.sanity_engine 20 2024 5 true
             Examples.sanity_target Examples.sanity_other (3 / 10) []).
    + reflexivity.
    + reflexivity.
    + reflexivity.
    + vm_compute. reflexivity.
    + reflexivity.
  - vm_compute. reflexivity.
Defined.

(** A table without columns cannot back either engine. *)
Lemma construction_fails_without_metrics_witness :
  Engine.create (mkTable [] []) None None None
  = Err (ValueError "Dataset missing all primary metrics")
  /\ PitchEngine.create (mkTable [] [])
     = Err (ValueError "Dataset missing all pitch comparison metrics").
Proof.
  destruct (construction_fails_without_metrics (mkTable [] []) None None None) as [H1 H2].
  split; [apply H1 | apply H2]; intros m _ [].
Defined.

(* ------------------------------------------------------------------ *)
(** * Further properties of the code *)

(** ** Distances and similarities *)

Lemma distance_to_similarity_range (d md : R) : 0 <= distance_to_similarity d md <= 100.
Proof.
  unfold distance_to_similarity. destruct (Req_dec_T md 0); [lra|]. minmax_cases; lra.
Qed.

(** [distance_to_similarity] is a percentage: always within [0, 100], 100
    when the max distance is 0 or the distance is 0, and never larger for a
    larger distance when the max distance is positive. *)
Theorem similarity_is_bounded_percentage (d md : R) :
  0 <= distance_to_similarity d md <= 100
  /\ (md = 0 -> distance_to_similarity d md = 100)
  /\ distance_to_similarity 0 md = 100
  /\ (0 < md -> forall d', d <= d' -> distance_to_similarity d' md <= distance_to_similarity d md).
Proof.
  split; [apply distance_to_similarity_range|]. split; [|split].
  - intro H. unfold distance_to_similarity. destruct (Req_dec_T md 0); [reflexivity|contradiction].
  - unfold distance_to_similarity. destruct (Req_dec_T md 0); [reflexivity|].
    replace ((1 - 0 / md) * 100) with 100 by (field; exact n).
    minmax_cases; lra.
  - intros Hmd d' Hd. unfold distance_to_similarity.
    destruct (Req_dec_T md 0); [lra|].
    assert (Hq : d / md <= d' / md).
    { unfold Rdiv. apply Rmult_le_compat_r; [left; apply Rinv_0_lt_compat; exact Hmd | exact Hd]. }
    set (q := d / md) in *. set (q' := d' / md) in *.
    minmax_cases; lra.
Qed.

(** A witness: a maximum distance of 10. *)
Lemma similarity_is_bounded_percentage_witness :
  distance_to_similarity 5 10 <= distance_to_similarity 2 10.
Proof.
  destruct (similarity_is_bounded_percentage 2 10) as [_ [_ [_ H]]].
  apply H; lra.
Defined.

Lemma distance_fold_self (w : weight_lookup) (a : row) (dims : list string) (td tw : R) :
  fst (fold_left (distance_step w a a) dims (td, tw)) = td.
Proof.
  revert td tw. induction dims as [|z dims IH]; intros td tw; cbn [fold_left]; [reflexivity|].
  rewrite distance_step_eq. destruct (cell a z) as [x|].
  - rewrite IH. ring.
  - apply IH.
Qed.

Lemma weight_of_nonneg (w : weight_lookup) (m : string) :
  (forall k x, In (k, x) w -> 0 <= x) -> 0 <= weight_of w m.
Proof.
  intro Hw. unfold weight_of. destruct (assoc m w) as [x|] eqn:E; [|lra].
  apply (Hw m). apply assoc_In. exact E.
Qed.

Lemma distance_fold_weight_grows (w : weight_lookup) (a b : row) (dims : list string) (td tw : R) :
  (forall k x, In (k, x) w -> 0 < x) ->
  tw <= snd (fold_left (distance_step w a b) dims (td, tw))
  /\ ((exists z, In z dims /\ cell a z <> None /\ cell b z <> None) ->
      tw < snd (fold_left (distance_step w a b) dims (td, tw))).
Proof.
  intro Hw. revert td tw. induction dims as [|z dims IH]; intros td tw; cbn [fold_left].
  - simpl. split; [lra|]. intros [z [[] _]].
  - rewrite distance_step_eq.
    pose proof (weight_of_pos w Hw (replace_underscore_z z)) as Hz.
    destruct (cell a z) as [x|] eqn:Ea, (cell b z) as [y|] eqn:Eb; cbv beta iota.
    + destruct (IH (td + weight_of w (replace_underscore_z z) * (x - y) ^ 2)
                   (tw + weight_of w (replace_underscore_z z))) as [H1 _].
      split; [lra|]. intros _. lra.
    + destruct (IH td tw) as [H1 H2]. split; [exact H1|].
      intros [z' [[<-|Hin] [Ha Hb]]]; [contradiction|]. apply H2. exists z'. auto.
    + destruct (IH td tw) as [H1 H2]. split; [exact H1|].
      intros [z' [[<-|Hin] [Ha Hb]]]; [contradiction|]. apply H2. exists z'. auto.
    + destruct (IH td tw) as [H1 H2]. split; [exact H1|].
      intros [z' [[<-|Hin] [Ha Hb]]]; [contradiction|]. apply H2. exists z'. auto.
Qed.

(** A row is at distance 0 from itself whenever the weights are positive
    and the row has a value in one of the dimensions. *)
Theorem self_distance_is_zero (w : weight_lookup) (a : row) (dims : list string) :
  (forall k x, In (k, x) w -> 0 < x) ->
  (exists z, In z dims /\ cell a z <> None) ->
  calculate_distance w a a dims = DFin 0.
Proof.
  intros Hw [z [Hz Ha]]. unfold calculate_distance.
  pose proof (distance_fold_self w a dims 0 0) as Hd.
  destruct (distance_fold_weight_grows w a a dims 0 0 Hw) as [_ Hp].
  specialize (Hp (ex_intro _ z (conj Hz (conj Ha Ha)))).
  destruct (fold_left (distance_step w a a) dims (0, 0)) as [td tw].
  simpl in Hd, Hp. subst td.
  destruct (Req_dec_T tw 0); [lra|].
  unfold np_sqrt. destruct (Rlt_dec 0 0); [lra|]. rewrite sqrt_0. reflexivity.
Qed.

Lemma self_distance_is_zero_witness :
  calculate_distance [("k_pct"%string, 1)] (Examples.prow 1 [("k_pct_z"%string, Some 1)])
    (Examples.prow 1 [("k_pct_z"%string, Some 1)]) ["k_pct_z"%string] = DFin 0.
Proof.
  apply self_distance_is_zero.
  - intros k x [E|[]]. injection E as _ <-. lra.
  - exists "k_pct_z"%string. split; [left; reflexivity | discriminate].
Defined.

Lemma distance_fold_nonneg (w : weight_lookup) (a b : row) (dims : list string) (td tw : R) :
  (forall k x, In (k, x) w -> 0 <= x) -> 0 <= td ->
  0 <= fst (fold_left (distance_step w a b) dims (td, tw)).
Proof.
  intro Hw. revert td tw. induction dims as [|z dims IH]; intros td tw Htd; cbn [fold_left];
    [exact Htd|].
  rewrite distance_step_eq.
  destruct (cell a z) as [x|], (cell b z) as [y|]; try (apply IH; exact Htd).
  apply IH. pose proof (weight_of_nonneg w (replace_underscore_z z) Hw).
  pose proof (pow2_ge_0 (x - y)). nra.
Qed.

(** With non-negative weights the distance is never NaN: it is the
    incomparable [inf] or a finite non-negative number. *)
Theorem distance_never_nan (w : weight_lookup) (a b : row) (dims : list string) :
  (forall k x, In (k, x) w -> 0 <= x) ->
  calculate_distance w a b dims = DInf
  \/ exists d, 0 <= d /\ calculate_distance w a b dims = DFin d.
Proof.
  intro Hw. unfold calculate_distance.
  pose proof (distance_fold_nonneg w a b dims 0 0 Hw (Rle_refl 0)) as Hd.
  destruct (fold_left (distance_step w a b) dims (0, 0)) as [td tw]. simpl in Hd.
  destruct (Req_dec_T tw 0); [left; reflexivity|right].
  unfold np_sqrt. destruct (Rlt_dec td 0); [lra|].
  exists (sqrt td). split; [apply sqrt_pos | reflexivity].
Qed.

Lemma distance_never_nan_witness :
  calculate_distance METRIC_WEIGHTS Examples.sanity_target Examples.sanity_other ["k_pct_z"%string]
    = DInf
  \/ exists d, 0 <= d /\ calculate_distance METRIC_WEIGHTS Examples.sanity_target
                            Examples.sanity_other ["k_pct_z"%string] = DFin d.
Proof.
  apply distance_never_nan.
  intros k x H. unfold METRIC_WEIGHTS in H.
  repeat (destruct H as [E|H]; [injection E as _ <-; lra|]). destruct H.
Defined.

(** ** The normalizer *)

Lemma fold_left_invariant {A B} (f : A -> B -> A) (Inv : A -> Prop) (l : list B) (a : A) :
  (forall a b, In b l -> Inv a -> Inv (f a b)) -> Inv a -> Inv (fold_left f l a).
Proof.
  revert a. induction l as [|b l IH]; intros a Hs Ha; simpl; [exact Ha|].
  apply IH; [intros a' b' Hb; apply Hs; right; exact Hb|].
  apply Hs; [left; reflexivity | exact Ha].
Qed.

Lemma set_column_ids (t : table) (nm : string) (vs : list value) :
  List.length vs = List.length (trows t) ->
  map (fun r => (mlbam_id r, season r, strs r)) (trows (set_column t nm vs))
  = map (fun r => (mlbam_id r, season r, strs r)) (trows t).
Proof.
  unfold set_column. simpl. generalize (trows t) as rs. intro rs. revert vs.
  induction rs as [|r rs IH]; intros [|v vs] H; simpl in *; try discriminate; [reflexivity|].
  f_equal. apply IH. lia.
Qed.

Lemma transform_frame (n : Normalizer.t) (df : table)
    (cols : option (list string)) (out : table) :
  Normalizer.transform n df cols = Ok out ->
  map (fun r => (mlbam_id r, season r, strs r)) (trows out)
  = map (fun r => (mlbam_id r, season r, strs r)) (trows df)
  /\ (forall c, In c (tcols df) -> In c (tcols out))
  /\ (forall c, (forall m, In m (tcols df) -> c <> zcol m) -> column out c = column df c).
Proof.
  unfold Normalizer.transform. destruct (negb (Normalizer.fitted n)); [discriminate|].
  intro H. injection H as <-.
  apply (fold_left_invariant _
           (fun res => List.length (trows res) = List.length (trows df)
                       /\ map (fun r => (mlbam_id r, season r, strs r)) (trows res)
                          = map (fun r => (mlbam_id r, season r, strs r)) (trows df)
                       /\ (forall c, In c (tcols df) -> In c (tcols res))
                       /\ (forall c, (forall m, In m (tcols df) -> c <> zcol m) ->
                                     column res c = column df c)));
    [| repeat split; auto].
  intros res col _ [Hl [Hid [Hc Hv]]]. unfold Normalizer.transform_col.
  destruct (mem col (tcols df) && mem col (map fst (Normalizer.means n))) eqn:Em;
    [|repeat split; assumption].
  apply andb_prop in Em as [Em _]. apply mem_In in Em.
  destruct (assoc col (Normalizer.means n)) as [mu|], (assoc col (Normalizer.stds n)) as [sd|];
    try (repeat split; assumption).
  assert (HL : List.length (map (Normalizer.zscore mu sd) (column df col)) = List.length (trows res))
    by (rewrite length_map, column_length; symmetry; exact Hl).
  repeat split.
  - rewrite set_column_rows_length by exact HL. exact Hl.
  - rewrite set_column_ids by exact HL. exact Hid.
  - intros c Hin. apply set_column_cols. left. apply Hc. exact Hin.
  - intros c Hnz. rewrite set_column_other; [apply Hv; exact Hnz | apply Hnz; exact Em | exact HL].
Qed.

(** [transform] only adds z columns: the rows keep their identity and
    string columns, every column of the input stays, and a column that is
    not the z column of an input column keeps its values. *)
Theorem transform_only_adds_z_columns (n : Normalizer.t) (df : table)
    (cols : option (list string)) (out : table) :
  Normalizer.transform n df cols = Ok out ->
  map (fun r => (mlbam_id r, season r, strs r)) (trows out)
  = map (fun r => (mlbam_id r, season r, strs r)) (trows df)
  /\ (forall c, In c (tcols df) -> In c (tcols out))
  /\ (forall c, (forall m, In m (tcols df) -> c <> zcol m) -> column out c = column df c).
Proof. apply transform_frame. Qed.

Lemma transform_only_adds_z_columns_witness :
  exists out,
    Normalizer.transform (Normalizer.fit Normalizer.init Examples.pct_table ["k_pct"%string])
      Examples.pct_table None = Ok out
    /\ column out "k_pct" = column Examples.pct_table "k_pct".
Proof.
  eexists. split; [reflexivity|].
  apply (transform_only_adds_z_columns
           (Normalizer.fit Normalizer.init Examples.pct_table ["k_pct"%string])
           Examples.pct_table None); [reflexivity|].
  intros m [<-|[]]. discriminate.
Defined.

(** The z column of [col], once [transform]'s loop has visited it. *)
Lemma transform_fold_column (n : Normalizer.t) (df : table) (cols : list string) (col : string)
    (mu sd : value) :
  assoc col (Normalizer.means n) = Some mu -> assoc col (Normalizer.stds n) = Some sd ->
  In col cols -> In col (tcols df) ->
  In (zcol col) (tcols (fold_left (Normalizer.transform_col n df) cols df))
  /\ column (fold_left (Normalizer.transform_col n df) cols df) (zcol col)
     = map (Normalizer.zscore mu sd) (column df col).
Proof.
  intros Hm Hs Hc Hd.
  set (V := map (Normalizer.zscore mu sd) (column df col)).
  set (Inv := fun res : table => List.length (trows res) = List.length (trows df)).
  assert (Hinv : forall res b, Inv res -> Inv (Normalizer.transform_col n df res b)).
  { intros res b H. unfold Normalizer.transform_col.
    destruct (mem b (tcols df) && mem b (map fst (Normalizer.means n))); [|exact H].
    destruct (assoc b (Normalizer.means n)), (assoc b (Normalizer.stds n)); try exact H.
    unfold Inv in *. rewrite set_column_rows_length; [exact H|].
    rewrite length_map, column_length. symmetry. exact H. }
  assert (Hest : forall res, Inv res ->
            In (zcol col) (tcols (Normalizer.transform_col n df res col))
            /\ column (Normalizer.transform_col n df res col) (zcol col) = V).
  { intros res H. unfold Normalizer.transform_col.
    rewrite (proj2 (mem_In _ _) Hd), (proj2 (mem_In _ _) (assoc_key_In _ _ _ Hm)).
    simpl andb. rewrite Hm, Hs. split.
    - apply set_column_cols. right. reflexivity.
    - apply set_column_same. unfold Inv, V in *. rewrite length_map, column_length.
      symmetry. exact H. }
  apply (fold_left_reaches (Normalizer.transform_col n df) Inv
           (fun res => In (zcol col) (tcols res) /\ column res (zcol col) = V) col);
    [exact Hinv | exact Hest | | reflexivity | right; exact Hc].
  intros res b H [H1 H2].
  destruct (String.eqb_spec b col) as [->|Hne]; [apply Hest; exact H|].
  unfold Normalizer.transform_col.
  destruct (mem b (tcols df) && mem b (map fst (Normalizer.means n))); [|split; assumption].
  destruct (assoc b (Normalizer.means n)), (assoc b (Normalizer.stds n)); try (split; assumption).
  split.
  - apply set_column_cols. left. exact H1.
  - rewrite set_column_other; [exact H2 | |].
    + intro E. apply Hne. symmetry. apply zcol_inj. exact E.
    + unfold Inv in H. rewrite length_map, column_length. symmetry. exact H.
Qed.

(** [columns or list(self._means.keys())]: without a column list, and also
    with an empty one, [transform] z-scores every fitted column present in
    the table it is given, with the statistics of the table it was fitted
    on. *)
Theorem transform_defaults_to_fitted_columns (df0 : table) (cols0 : list string) (df : table)
    (c : string) (opt : option (list string)) :
  opt = None \/ opt = Some [] ->
  In c cols0 -> In c (tcols df0) -> In c (tcols df) ->
  exists out,
    Normalizer.transform (Normalizer.fit Normalizer.init df0 cols0) df opt = Ok out
    /\ In (zcol c) (tcols out)
    /\ column out (zcol c)
       = map (Normalizer.zscore (pd_mean (dropna (column df0 c)))
                                (Normalizer.floor_std (pd_std (dropna (column df0 c)))))
             (column df c).
Proof.
  intros Hopt Hc Hd0 Hd. destruct (fit_stats Normalizer.init df0 cols0 c Hc Hd0) as [Hm Hs].
  set (n' := Normalizer.fit Normalizer.init df0 cols0) in *.
  exists (fold_left (Normalizer.transform_col n' df) (map fst (Normalizer.means n')) df).
  split.
  - unfold Normalizer.transform. replace (Normalizer.fitted n') with true by reflexivity.
    destruct Hopt as [-> | ->]; reflexivity.
  - apply transform_fold_column; [exact Hm | exact Hs | apply (assoc_key_In _ _ _ Hm) | exact Hd].
Qed.

Lemma transform_defaults_to_fitted_columns_witness :
  exists out,
    Normalizer.transform (Normalizer.fit Normalizer.init Examples.flat_table ["k_pct"%string])
      Examples.pct_table (Some []) = Ok out
    /\ In (zcol "k_pct") (tcols out)
    /\ column out (zcol "k_pct")
       = map (Normalizer.zscore (pd_mean (dropna (column Examples.flat_table "k_pct")))
                (Normalizer.floor_std (pd_std (dropna (column Examples.flat_table "k_pct")))))
             (column Examples.pct_table "k_pct").
Proof.
  apply (transform_defaults_to_fitted_columns Examples.flat_table ["k_pct"%string]
           Examples.pct_table "k_pct" (Some [])).
  - right. reflexivity.
  - left. reflexivity.
  - left. reflexivity.
  - left. reflexivity.
Defined.

(** [fit] only touches the columns it is asked for and that the table
    has: the stored mean and standard deviation of any other column are
    those of the normalizer before the call. *)
Theorem fit_keeps_other_columns (n : Normalizer.t) (df : table) (cols : list string) (c : string) :
  ~ In c cols \/ ~ In c (tcols df) ->
  assoc c (Normalizer.means (Normalizer.fit n df cols)) = assoc c (Normalizer.means n)
  /\ assoc c (Normalizer.stds (Normalizer.fit n df cols)) = assoc c (Normalizer.stds n).
Proof.
  intro Hc. unfold Normalizer.fit. simpl.
  apply (fold_left_invariant (Normalizer.fit_col df)
           (fun a => assoc c (Normalizer.means a) = assoc c (Normalizer.means n)
                     /\ assoc c (Normalizer.stds a) = assoc c (Normalizer.stds n)));
    [|split; reflexivity].
  intros a b Hb [H1 H2]. unfold Normalizer.fit_col.
  destruct (mem b (tcols df)) eqn:Eb; [|split; assumption]. simpl.
  assert (Hne : c <> b).
  { intros ->. apply mem_In in Eb. destruct Hc as [Hc|Hc]; contradiction. }
  rewrite !assoc_dict_set_other by exact Hne. split; assumption.
Qed.

Lemma fit_keeps_other_columns_witness :
  assoc "bb_pct" (Normalizer.means (Normalizer.fit Normalizer.init Examples.flat_table
                                      ["k_pct"%string; "bb_pct"%string])) = None.
Proof.
  apply (fit_keeps_other_columns Normalizer.init Examples.flat_table
           ["k_pct"%string; "bb_pct"%string] "bb_pct").
  right. simpl. intros [E|[]]. discriminate.
Defined.

(** [get_z_score] and [transform] agree: after [fit_transform], the z
    score [transform] writes for a row whose value is [x] is what
    [get_z_score] returns for [x], computed from the pair [get_stats]
    reports, whose standard deviation is never 0. *)
Theorem get_z_score_agrees_with_transform (n : Normalizer.t) (df : table) (cols : list string)
    (col : string) :
  In col cols -> In col (tcols df) ->
  exists mu sd,
    Normalizer.get_stats (fst (Normalizer.fit_transform n df cols)) col = Ok (mu, sd)
    /\ sd <> Some 0
    /\ (forall x, Normalizer.get_z_score (fst (Normalizer.fit_transform n df cols)) col x
                  = Ok (Normalizer.zscore mu sd (Some x)))
    /\ exists out, snd (Normalizer.fit_transform n df cols) = Ok out
         /\ column out (zcol col) = map (Normalizer.zscore mu sd) (column df col).
Proof.
  intros Hc Hd. destruct (fit_stats n df cols col Hc Hd) as [Hm Hs].
  unfold Normalizer.fit_transform. simpl fst. simpl snd.
  exists (pd_mean (dropna (column df col))), (Normalizer.floor_std (pd_std (dropna (column df col)))).
  split; [unfold Normalizer.get_stats; rewrite Hm, Hs; reflexivity|].
  split; [apply floor_std_nonzero|].
  split; [intro x; unfold Normalizer.get_z_score; rewrite Hm, Hs; reflexivity|].
  destruct (fit_transform_column n df cols col Hc Hd) as [out [Ho [_ Hcol]]].
  exists out. split; assumption.
Qed.

Lemma get_z_score_agrees_with_transform_witness :
  exists mu sd,
    Normalizer.get_stats (fst (Normalizer.fit_transform Normalizer.init Examples.pct_table
                                 ["k_pct"%string])) "k_pct" = Ok (mu, sd)
    /\ sd <> Some 0
    /\ (forall x, Normalizer.get_z_score (fst (Normalizer.fit_transform Normalizer.init
                                                 Examples.pct_table ["k_pct"%string])) "k_pct" x
                  = Ok (Normalizer.zscore mu sd (Some x)))
    /\ exists out, snd (Normalizer.fit_transform Normalizer.init Examples.pct_table
                          ["k_pct"%string]) = Ok out
         /\ column out (zcol "k_pct") = map (Normalizer.zscore mu sd)
                                           (column Examples.pct_table "k_pct").
Proof.
  apply get_z_score_agrees_with_transform; left; reflexivity.
Defined.

(** ** The ranking of [find_similar] *)

Lemma Rleb_true (a b : R) : Rleb a b = true -> a <= b.
Proof. unfold Rleb. destruct (Rle_dec a b); [auto | discriminate]. Qed.

Lemma Rleb_false (a b : R) : Rleb a b = false -> b < a.
Proof. unfold Rleb. destruct (Rle_dec a b); [discriminate | intros _; lra]. Qed.

Lemma insert_by_distance_hd (y x : Engine.scored) (l : list Engine.scored) :
  HdRel (fun a b => Engine.sc_distance a <= Engine.sc_distance b) y l ->
  Engine.sc_distance y <= Engine.sc_distance x ->
  HdRel (fun a b => Engine.sc_distance a <= Engine.sc_distance b) y
        (Engine.insert_by_distance x l).
Proof.
  intros H Hyx. destruct l as [|z l]; simpl; [constructor; exact Hyx|].
  destruct (Rleb (Engine.sc_distance z) (Engine.sc_distance x)); constructor;
    [inversion H; assumption | exact Hyx].
Qed.

Lemma insert_by_distance_sorted (x : Engine.scored) (l : list Engine.scored) :
  Sorted (fun a b => Engine.sc_distance a <= Engine.sc_distance b) l ->
  Sorted (fun a b => Engine.sc_distance a <= Engine.sc_distance b)
         (Engine.insert_by_distance x l).
Proof.
  induction l as [|y l IH]; intro H; simpl; [repeat constructor|].
  destruct (Rleb (Engine.sc_distance y) (Engine.sc_distance x)) eqn:E.
  - inversion H as [|? ? Hl Hhd]; subst. constructor; [apply IH; exact Hl|].
    apply insert_by_distance_hd; [exact Hhd | apply Rleb_true; exact E].
  - constructor; [exact H|]. constructor. apply Rleb_false in E. lra.
Qed.

Lemma fold_insert_sorted (l acc : list Engine.scored) :
  Sorted (fun a b => Engine.sc_distance a <= Engine.sc_distance b) acc ->
  Sorted (fun a b => Engine.sc_distance a <= Engine.sc_distance b)
         (fold_left (fun acc y => Engine.insert_by_distance y acc) l acc).
Proof.
  revert acc. induction l as [|y l IH]; intros acc H; simpl; [exact H|].
  apply IH, insert_by_distance_sorted, H.
Qed.

Lemma Sorted_firstn {A} (Rel : A -> A -> Prop) (n : nat) (l : list A) :
  Sorted Rel l -> Sorted Rel (firstn n l).
Proof.
  revert n. induction l as [|a l IH]; intros [|n] H; simpl.
  - constructor.
  - constructor.
  - constructor.
  - inversion H as [|? ? Hl Hhd]; subst. constructor; [apply IH; exact Hl|].
    destruct l as [|b l]; destruct n; simpl; constructor. inversion Hhd; assumption.
Qed.

Lemma insert_by_distance_perm (x : Engine.scored) (l : list Engine.scored) :
  Permutation (Engine.insert_by_distance x l) (x :: l).
Proof.
  induction l as [|y l IH]; simpl; [reflexivity|].
  destruct (Rleb (Engine.sc_distance y) (Engine.sc_distance x)); [|reflexivity].
  eapply perm_trans; [apply perm_skip, IH | apply perm_swap].
Qed.

Lemma fold_insert_perm (l acc : list Engine.scored) :
  Permutation (fold_left (fun acc y => Engine.insert_by_distance y acc) l acc) (l ++ acc).
Proof.
  revert acc. induction l as [|y l IH]; intro acc; simpl; [reflexivity|].
  eapply perm_trans; [apply IH|].
  eapply perm_trans; [apply Permutation_app_head, insert_by_distance_perm|].
  apply Permutation_sym, Permutation_middle.
Qed.

Lemma StronglySorted_app_rel {A} (Rel : A -> A -> Prop) (l1 l2 : list A) :
  StronglySorted Rel (l1 ++ l2) -> forall a b, In a l1 -> In b l2 -> Rel a b.
Proof.
  induction l1 as [|x l1 IH]; simpl; intros H a b Ha Hb; [destruct Ha|].
  inversion H as [|? ? Hs Hf]; subst. destruct Ha as [<-|Ha].
  - rewrite Forall_forall in Hf. apply Hf, in_or_app. right. exact Hb.
  - apply (IH Hs); assumption.
Qed.

(** What [nsmallest] keeps: [min n (length l)] entries in ascending order,
    and no dropped entry is closer than a kept one. *)
Lemma nsmallest_spec (n : nat) (l : list Engine.scored) :
  List.length (Engine.nsmallest n l) = Nat.min n (List.length l)
  /\ Sorted (fun a b => Engine.sc_distance a <= Engine.sc_distance b) (Engine.nsmallest n l)
  /\ exists rest, Permutation l (Engine.nsmallest n l ++ rest)
       /\ (forall o x, In o (Engine.nsmallest n l) -> In x rest ->
                       Engine.sc_distance o <= Engine.sc_distance x).
Proof.
  unfold Engine.nsmallest.
  set (srt := fold_left (fun acc y => Engine.insert_by_distance y acc) l []).
  pose proof (fold_insert_perm l []) as Hp. rewrite app_nil_r in Hp. fold srt in Hp.
  assert (Hs : Sorted (fun a b => Engine.sc_distance a <= Engine.sc_distance b) srt)
    by (apply fold_insert_sorted; constructor).
  split; [rewrite length_firstn, (Permutation_length Hp); reflexivity|].
  split; [apply Sorted_firstn, Hs|].
  exists (skipn n srt). split.
  - rewrite firstn_skipn. apply Permutation_sym, Hp.
  - apply StronglySorted_app_rel. rewrite firstn_skipn.
    apply Sorted_StronglySorted; [intros a b c; lra | exact Hs].
Qed.

Lemma calculate_distance_fin_nonneg (w : weight_lookup) (a b : row) (dims : list string) (d : R) :
  calculate_distance w a b dims = DFin d -> 0 <= d.
Proof.
  unfold calculate_distance. destruct (fold_left _ dims (0, 0)) as [td tw].
  destruct (Req_dec_T tw 0); [discriminate|]. unfold np_sqrt.
  destruct (Rlt_dec _ 0); [discriminate|]. intro H; injection H as <-. apply sqrt_pos.
Qed.

Lemma keep_finite_similarity (e : Engine.t) (target : row) (rows : list row) (sc : Engine.scored) :
  In sc (flat_map (Engine.keep_finite e target) rows) ->
  Engine.sc_similarity sc
  = distance_to_similarity (Engine.sc_distance sc) (Engine.max_distance e).
Proof.
  rewrite in_flat_map. intros [c [_ Hsc]]. unfold Engine.keep_finite in Hsc.
  destruct (calculate_distance (Engine.weights e) target c (Engine.z_columns e));
    simpl in Hsc; try contradiction.
  destruct Hsc as [<-|[]]. reflexivity.
Qed.

(** The successful runs of [find_similar]'s steps 1-7: no match, or the
    [nsmallest] of the finite-distance rows left by the filters. *)
Lemma find_similar_matches_cases (e : Engine.t) (pid s : Z) (n : nat) (excl : bool)
    (rs : list Engine.scored) :
  Engine.find_similar_matches e pid s n excl = Ok rs ->
  rs = []
  \/ exists target c3 c4,
       find (Engine.target_mask pid s) (trows (Engine.dataset e)) = Some target
       /\ ((Engine.is_batter e = true
            /\ c3 = Engine.sanity_filter e target
                      (Engine.candidate_pool (Engine.dataset e) pid s excl))
           \/ (Engine.is_batter e = false
               /\ Engine.filter_by_pitcher_role (tcols (Engine.dataset e)) target
                    (Engine.sanity_filter e target
                       (Engine.candidate_pool (Engine.dataset e) pid s excl)) = Ok c3))
       /\ Engine.filter_candidates_by_metrics e c3 = Ok c4
       /\ rs = Engine.nsmallest n (flat_map (Engine.keep_finite e target) (trows c4)).
Proof.
  unfold Engine.find_similar_matches.
  destruct (find (Engine.target_mask pid s) (trows (Engine.dataset e))) as [target|];
    [|intro H; injection H as <-; left; reflexivity].
  set (c2 := Engine.sanity_filter e target
               (Engine.candidate_pool (Engine.dataset e) pid s excl)).
  intro H.
  destruct (Engine.is_empty c2); [injection H as <-; left; reflexivity|].
  destruct (if Engine.is_batter e then Ok c2
            else Engine.filter_by_pitcher_role (tcols (Engine.dataset e)) target c2)
    as [c3|err] eqn:E3; [|discriminate]. cbn [bind] in H.
  destruct (Engine.is_empty c3); [injection H as <-; left; reflexivity|].
  destruct (Engine.filter_candidates_by_metrics e c3) as [c4|err] eqn:E4; [|discriminate].
  cbn [bind] in H.
  destruct (Engine.is_empty c4); [injection H as <-; left; reflexivity|].
  destruct (flat_map (Engine.keep_finite e target) (trows c4)) as [|k ks] eqn:Ek;
    injection H as <-; [left; reflexivity|].
  right. exists target, c3, c4. split; [reflexivity|]. split.
  - destruct (Engine.is_batter e) eqn:Eb.
    + left. injection E3 as <-. split; reflexivity.
    + right. split; [reflexivity | exact E3].
  - split; [exact E4 | rewrite Ek; reflexivity].
Qed.

Lemma candidate_pool_cols (ds : table) (pid s : Z) (excl : bool) :
  tcols (Engine.candidate_pool ds pid s excl) = tcols ds.
Proof. unfold Engine.candidate_pool. destruct excl; reflexivity. Qed.

Lemma candidate_pool_In (ds : table) (pid s : Z) (excl : bool) (r : row) :
  In r (trows (Engine.candidate_pool ds pid s excl)) ->
  In r (trows ds)
  /\ ~ (mlbam_id r = pid /\ season r = s)
  /\ (excl = true -> mlbam_id r <> pid).
Proof.
  unfold Engine.candidate_pool, Engine.target_mask.
  assert (Hmask : negb (Z.eqb (mlbam_id r) pid && Z.eqb (season r) s) = true ->
                  ~ (mlbam_id r = pid /\ season r = s)).
  { intros Hm [E1 E2]. rewrite E1, E2, !Z.eqb_refl in Hm. discriminate. }
  destruct excl; simpl; intro H.
  - apply filter_In in H as [H Hn]. apply filter_In in H as [H Hm].
    split; [exact H|]. split; [apply Hmask, Hm|].
    intros _ E. rewrite E, Z.eqb_refl in Hn. discriminate.
  - apply filter_In in H as [H Hm]. split; [exact H|].
    split; [apply Hmask, Hm | discriminate].
Qed.

Lemma sanity_filter_incl (e : Engine.t) (target : row) (c : table) :
  incl (trows (Engine.sanity_filter e target c)) (trows c).
Proof.
  unfold Engine.sanity_filter.
  destruct (mem (Engine.sanity_metric e) (tcols c) && mem (Engine.sanity_metric e) (tcols (Engine.dataset e)));
    [|apply incl_refl].
  destruct (cell target (Engine.sanity_metric e)); [|apply incl_refl].
  intros x Hx. apply filter_In in Hx. apply Hx.
Qed.

(** A ranked match, traced back through the filters to the dataset. *)
Lemma find_similar_matches_row (e : Engine.t) (pid s : Z) (n : nat) (excl : bool)
    (rs : list Engine.scored) (sc : Engine.scored) :
  Engine.find_similar_matches e pid s n excl = Ok rs -> In sc rs ->
  exists target c4,
    find (Engine.target_mask pid s) (trows (Engine.dataset e)) = Some target
    /\ In (Engine.sc_row sc) (trows c4)
    /\ (exists c3, Engine.filter_candidates_by_metrics e c3 = Ok c4)
    /\ In (Engine.sc_row sc)
          (trows (Engine.sanity_filter e target
                    (Engine.candidate_pool (Engine.dataset e) pid s excl)))
    /\ In sc (flat_map (Engine.keep_finite e target) (trows c4)).
Proof.
  intros H Hin. destruct (find_similar_matches_cases e pid s n excl rs H)
    as [->|[target [c3 [c4 [Hf [H3 [H4 ->]]]]]]]; [destruct Hin|].
  apply nsmallest_incl in Hin.
  destruct (keep_finite_In e target (trows c4) sc Hin) as [Hr _].
  exists target, c4. split; [exact Hf|]. split; [exact Hr|].
  split; [exists c3; exact H4|]. split; [|exact Hin].
  destruct (filter_candidates_by_metrics_incl e c3 c4 H4) as [_ I4].
  destruct H3 as [[_ ->]|[_ H3]]; [apply I4, Hr|].
  destruct (filter_by_pitcher_role_incl _ _ _ _ H3) as [_ I3]. apply I3, I4, Hr.
Qed.

Lemma sanity_filter_In (e : Engine.t) (pid s : Z) (excl : bool) (target r : row) (ts : R) :
  mem (Engine.sanity_metric e) (tcols (Engine.dataset e)) = true ->
  cell target (Engine.sanity_metric e) = Some ts ->
  In r (trows (Engine.sanity_filter e target (Engine.candidate_pool (Engine.dataset e) pid s excl))) ->
  exists v, cell r (Engine.sanity_metric e) = Some v
            /\ ts - Engine.sanity_tolerance e <= v <= ts + Engine.sanity_tolerance e.
Proof.
  intros Hcol Ht Hr. unfold Engine.sanity_filter in Hr.
  rewrite candidate_pool_cols, Hcol, Ht in Hr. simpl in Hr.
  apply filter_In in Hr as [_ Hp].
  destruct (cell r (Engine.sanity_metric e)) as [v|]; [|discriminate].
  apply andb_prop in Hp as [H1 H2]. apply Rleb_true in H1, H2.
  exists v. split; [reflexivity | lra].
Qed.

Lemma leb_2_true (k : nat) : (2 <=? k)%nat = true -> (2 <= k)%nat.
Proof. apply Nat.leb_le. Qed.

Lemma filter_candidates_by_metrics_rows (e : Engine.t) (c c' : table) (r : row) :
  Engine.filter_candidates_by_metrics e c = Ok c' -> In r (trows c') ->
  (2 <= Engine.count_notna r (filter (fun z => mem z (Engine.z_columns e))
                                 (map zcol (fst (Engine.coverage_groups (Engine.is_batter e))))))%nat
  /\ (2 <= Engine.count_notna r (filter (fun z => mem z (Engine.z_columns e))
                                    (map zcol (snd (Engine.coverage_groups (Engine.is_batter e))))))%nat.
Proof.
  unfold Engine.filter_candidates_by_metrics.
  destruct (Engine.coverage_groups (Engine.is_batter e)) as [g1 g2]. simpl fst; simpl snd.
  destruct (find _ _); [discriminate|].
  intros H Hr; injection H as <-. cbn [trows filter_rows] in Hr.
  apply filter_In in Hr as [_ Hp]. cbn beta in Hp.
  apply andb_prop in Hp as [H1 H2].
  split; [apply leb_2_true, H1 | apply leb_2_true, H2].
Qed.

Lemma rank_example_distance :
  calculate_distance [] Examples.rank_target Examples.rank_cand
    ["exit_velocity_z"; "barrel_pct_z"; "k_pct_z"; "bb_pct_z"]%string = DFin 0.
Proof.
  unfold calculate_distance. cbn -[Rplus Rmult Rminus pow Rdiv Ropp IZR].
  destruct (Req_dec_T _ 0) as [E|_]; [lra|]. unfold np_sqrt.
  replace (0 + 1 * (1 - 1) ^ 2 + 1 * (0 - 0) ^ 2 + 1 * (-1 - -1) ^ 2 + 1 * (2 - 2) ^ 2)
    with 0 by ring.
  destruct (Rlt_dec 0 0) as [L|_]; [lra|]. rewrite sqrt_0. reflexivity.
Qed.

(** In the ranking scenario, the sparse candidate fails the coverage filter
    and the other one is ranked at distance 0. *)
Lemma rank_example_matches :
  Engine.find_similar_matches Examples.rank_engine 30 2024 5 true
  = Ok [Engine.mkScored Examples.rank_cand 0 (distance_to_similarity 0 10)].
Proof.
  assert (H1 : Rleb (3 / 10 - 3 / 100) (3 / 10) = true)
    by (unfold Rleb; destruct (Rle_dec _ _); [reflexivity | lra]).
  assert (H2 : Rleb (3 / 10) (3 / 10 + 3 / 100) = true)
    by (unfold Rleb; destruct (Rle_dec _ _); [reflexivity | lra]).
  unfold Engine.find_similar_matches.
  cbv -[Rleb calculate_distance distance_to_similarity Rplus Rmult Rminus pow Rdiv Ropp IZR].
  rewrite H1, H2.
  cbv -[Rleb calculate_distance distance_to_similarity Rplus Rmult Rminus pow Rdiv Ropp IZR].
  pose proof rank_example_distance as Hd.
  cbv -[calculate_distance Rplus Rmult Rminus pow Rdiv Ropp IZR] in Hd.
  rewrite Hd.
  cbv -[Rleb calculate_distance distance_to_similarity Rplus Rmult Rminus pow Rdiv Ropp IZR].
  reflexivity.
Qed.

(** [find_similar] ranks at most [top_n] matches, closest first; each has a
    non-negative distance and a similarity in [0, 100] computed from it. *)
Theorem ranked_matches_sorted_and_bounded (e : Engine.t) (pid s : Z) (n : nat) (excl : bool)
    (rs : list Engine.scored) :
  Engine.find_similar_matches e pid s n excl = Ok rs ->
  (List.length rs <= n)%nat
  /\ Sorted (fun a b => Engine.sc_distance a <= Engine.sc_distance b) rs
  /\ Forall (fun sc => 0 <= Engine.sc_distance sc
                       /\ Engine.sc_similarity sc
                          = distance_to_similarity (Engine.sc_distance sc) (Engine.max_distance e)
                       /\ 0 <= Engine.sc_similarity sc <= 100) rs.
Proof.
  intro H. destruct (find_similar_matches_cases e pid s n excl rs H)
    as [->|[target [c3 [c4 [_ [_ [_ ->]]]]]]].
  - split; [simpl; lia|]. split; constructor.
  - destruct (nsmallest_spec n (flat_map (Engine.keep_finite e target) (trows c4)))
      as [Hlen [Hsort _]].
    split; [rewrite Hlen; apply Nat.le_min_l|]. split; [exact Hsort|].
    apply Forall_forall. intros sc Hin. apply nsmallest_incl in Hin.
    destruct (keep_finite_In e target (trows c4) sc Hin) as [_ Hd].
    pose proof (keep_finite_similarity e target (trows c4) sc Hin) as Hs.
    split; [apply (calculate_distance_fin_nonneg _ _ _ _ _ Hd)|].
    split; [exact Hs|]. rewrite Hs. apply distance_to_similarity_range.
Qed.

Lemma ranked_matches_sorted_and_bounded_witness :
  exists rs, Engine.find_similar_matches Examples.rank_engine 30 2024 5 true = Ok rs
    /\ rs <> []
    /\ (List.length rs <= 5)%nat
    /\ Sorted (fun a b => Engine.sc_distance a <= Engine.sc_distance b) rs
    /\ Forall (fun sc => 0 <= Engine.sc_distance sc
                         /\ Engine.sc_similarity sc
                            = distance_to_similarity (Engine.sc_distance sc)
                                (Engine.max_distance Examples.rank_engine)
                         /\ 0 <= Engine.sc_similarity sc <= 100) rs.
Proof.
  eexists. split; [apply rank_example_matches|]. split; [discriminate|].
  apply (ranked_matches_sorted_and_bounded Examples.rank_engine 30 2024 5 true).
  apply rank_example_matches.
Defined.

(** [nsmallest(top_n, "distance")] keeps [min top_n (length l)] entries in
    ascending order of distance, and every entry it drops is at least as far
    as every entry it keeps. *)
Theorem nsmallest_selects_closest (n : nat) (l : list Engine.scored) :
  List.length (Engine.nsmallest n l) = Nat.min n (List.length l)
  /\ Sorted (fun a b => Engine.sc_distance a <= Engine.sc_distance b) (Engine.nsmallest n l)
  /\ exists rest, Permutation l (Engine.nsmallest n l ++ rest)
       /\ (forall o x, In o (Engine.nsmallest n l) -> In x rest ->
                       Engine.sc_distance o <= Engine.sc_distance x).
Proof. apply nsmallest_spec. Qed.

(** A match ranked by [find_similar] is a row of the dataset, never the
    queried (player, season), and never the queried player at all when
    [exclude_same_player] is set. *)
Theorem ranked_matches_exclude_target (e : Engine.t) (pid s : Z) (n : nat) (excl : bool)
    (rs : list Engine.scored) (sc : Engine.scored) :
  Engine.find_similar_matches e pid s n excl = Ok rs -> In sc rs ->
  In (Engine.sc_row sc) (trows (Engine.dataset e))
  /\ ~ (mlbam_id (Engine.sc_row sc) = pid /\ season (Engine.sc_row sc) = s)
  /\ (excl = true -> mlbam_id (Engine.sc_row sc) <> pid).
Proof.
  intros H Hin.
  destruct (find_similar_matches_row e pid s n excl rs sc H Hin)
    as [target [c4 [_ [_ [_ [Hr _]]]]]].
  apply sanity_filter_incl in Hr. exact (candidate_pool_In _ _ _ _ _ Hr).
Qed.

Lemma ranked_matches_exclude_target_witness :
  exists rs sc, Engine.find_similar_matches Examples.rank_engine 30 2024 5 true = Ok rs
    /\ In sc rs
    /\ In (Engine.sc_row sc) (trows (Engine.dataset Examples.rank_engine))
    /\ mlbam_id (Engine.sc_row sc) <> 30%Z.
Proof.
  do 2 eexists. split; [apply rank_example_matches|]. split; [left; reflexivity|].
  destruct (ranked_matches_exclude_target Examples.rank_engine 30 2024 5 true _ _
              rank_example_matches (or_introl eq_refl)) as [H1 [_ H3]].
  split; [exact H1 | apply H3; reflexivity].
Defined.

(** When the sanity-check column exists and the target has a value [ts],
    every ranked match has a value within [ts +/- tolerance]. *)
Theorem ranked_matches_within_tolerance (e : Engine.t) (pid s : Z) (n : nat) (excl : bool)
    (target : row) (ts : R) (rs : list Engine.scored) (sc : Engine.scored) :
  mem (Engine.sanity_metric e) (tcols (Engine.dataset e)) = true ->
  find (Engine.target_mask pid s) (trows (Engine.dataset e)) = Some target ->
  cell target (Engine.sanity_metric e) = Some ts ->
  Engine.find_similar_matches e pid s n excl = Ok rs -> In sc rs ->
  exists v, cell (Engine.sc_row sc) (Engine.sanity_metric e) = Some v
            /\ ts - Engine.sanity_tolerance e <= v <= ts + Engine.sanity_tolerance e.
Proof.
  intros Hcol Hf Ht H Hin.
  destruct (find_similar_matches_row e pid s n excl rs sc H Hin)
    as [target' [c4 [Hf' [_ [_ [Hr _]]]]]].
  rewrite Hf in Hf'. injection Hf' as <-.
  exact (sanity_filter_In e pid s excl target _ ts Hcol Ht Hr).
Qed.

Lemma ranked_matches_within_tolerance_witness :
  exists v, cell Examples.rank_cand "xwoba" = Some v /\ 3 / 10 - 3 / 100 <= v <= 3 / 10 + 3 / 100.
Proof.
  apply (ranked_matches_within_tolerance Examples.rank_engine 30 2024 5 true
           Examples.rank_target (3 / 10)
           [Engine.mkScored Examples.rank_cand 0 (distance_to_similarity 0 10)]
           (Engine.mkScored Examples.rank_cand 0 (distance_to_similarity 0 10))).
  - reflexivity.
  - reflexivity.
  - reflexivity.
  - apply rank_example_matches.
  - left; reflexivity.
Defined.

(** Every ranked match has at least two non-missing z-scores among the
    engine's z-columns of each coverage group. *)
Theorem ranked_matches_have_coverage (e : Engine.t) (pid s : Z) (n : nat) (excl : bool)
    (rs : list Engine.scored) (sc : Engine.scored) :
  Engine.find_similar_matches e pid s n excl = Ok rs -> In sc rs ->
  (2 <= Engine.count_notna (Engine.sc_row sc)
          (filter (fun z => mem z (Engine.z_columns e))
                  (map zcol (fst (Engine.coverage_groups (Engine.is_batter e))))))%nat
  /\ (2 <= Engine.count_notna (Engine.sc_row sc)
             (filter (fun z => mem z (Engine.z_columns e))
                     (map zcol (snd (Engine.coverage_groups (Engine.is_batter e))))))%nat.
Proof.
  intros H Hin.
  destruct (find_similar_matches_row e pid s n excl rs sc H Hin)
    as [target [c4 [_ [Hr [[c3 H4] _]]]]].
  exact (filter_candidates_by_metrics_rows e c3 c4 _ H4 Hr).
Qed.

Lemma ranked_matches_have_coverage_witness :
  (2 <= Engine.count_notna Examples.rank_cand ["exit_velocity_z"; "barrel_pct_z"]%string)%nat
  /\ (2 <= Engine.count_notna Examples.rank_cand ["k_pct_z"; "bb_pct_z"]%string)%nat.
Proof.
  apply (ranked_matches_have_coverage Examples.rank_engine 30 2024 5 true
           [Engine.mkScored Examples.rank_cand 0 (distance_to_similarity 0 10)]
           (Engine.mkScored Examples.rank_cand 0 (distance_to_similarity 0 10))).
  - apply rank_example_matches.
  - left; reflexivity.
Defined.

(** ** Building the season engine *)

Lemma create_cases (df : table) (w : option weight_lookup) (tol : option R)
    (config : option metric_config) (e : Engine.t) :
  Engine.create df w tol config = Ok e ->
  exists m0 ms,
    filter (fun m => mem m (tcols df)) (primary_metrics (Engine.config_or_default config))
    = m0 :: ms
    /\ Engine.normalizer e = Normalizer.fit Normalizer.init df (m0 :: ms)
    /\ Normalizer.transform (Normalizer.fit Normalizer.init df (m0 :: ms)) df (Some (m0 :: ms))
       = Ok (Engine.dataset e)
    /\ Engine.metrics_used e = m0 :: ms
    /\ Engine.z_columns e = map zcol (m0 :: ms)
    /\ Engine.max_distance e
       = estimate_max_distance (Engine.dataset e) (Engine.weights e) (Engine.z_columns e).
Proof.
  intro H. unfold Engine.create in H.
  destruct (Engine.prepare_dataset _ _ _) as [[[[[nrm used] zc] ds] maxd]|err] eqn:Ep;
    [|discriminate].
  cbn [bind] in H. injection H as <-.
  unfold Engine.prepare_dataset in Ep.
  destruct (filter (fun m => mem m (tcols df)) _) as [|m0 ms] eqn:Ea; [discriminate|].
  unfold Normalizer.fit_transform in Ep.
  destruct (Normalizer.transform (Normalizer.fit Normalizer.init df (m0 :: ms)) df
              (Some (m0 :: ms))) as [out|err] eqn:Et; cbn [bind] in Ep; [|discriminate].
  injection Ep as <- <- <- <- <-.
  exists m0, ms. repeat split; assumption || reflexivity.
Qed.

Lemma fold_Rmax_ge (xs : list R) (x : R) : x <= fold_left Rmax xs x.
Proof.
  revert x. induction xs as [|y xs IH]; intro x; simpl; [lra|].
  eapply Rle_trans; [apply Rmax_l | apply IH].
Qed.

Lemma fold_Rmin_le (xs : list R) (x : R) : fold_left Rmin xs x <= x.
Proof.
  revert x. induction xs as [|y xs IH]; intro x; simpl; [lra|].
  eapply Rle_trans; [apply IH | apply Rmin_l].
Qed.

Lemma z_range_nonneg (x : R) (xs : list R) : 0 <= z_range x xs.
Proof. unfold z_range. pose proof (fold_Rmax_ge xs x). pose proof (fold_Rmin_le xs x). lra. Qed.

Lemma sumR_nonneg (l : list R) : (forall x, In x l -> 0 <= x) -> 0 <= sumR l.
Proof.
  induction l as [|x l IH]; intro H; [rewrite sumR_nil; lra|].
  rewrite sumR_cons. pose proof (H x (or_introl eq_refl)).
  assert (0 <= sumR l) by (apply IH; intros y Hy; apply H; right; exact Hy). lra.
Qed.

Lemma estimate_max_distance_nonneg (df : table) (w : weight_lookup) (zc : list string) :
  (forall k x, In (k, x) w -> 0 <= x) -> 0 <= estimate_max_distance df w zc.
Proof.
  intro Hw. unfold estimate_max_distance.
  set (zr := flat_map _ zc).
  assert (Hzr : forall r, In r zr -> 0 <= r).
  { intros r Hr. unfold zr in Hr. apply in_flat_map in Hr as [c [_ Hc]].
    destruct (mem c (tcols df)); [|destruct Hc].
    destruct (dropna (column df c)) as [|x xs]; [destruct Hc|].
    destruct Hc as [<-|[]]. apply z_range_nonneg. }
  destruct zr as [|r rs] eqn:Ez; [lra|].
  apply Rmult_le_pos; [apply Rmult_le_pos|lra].
  - unfold Rdiv. apply Rmult_le_pos; [apply sumR_nonneg, Hzr|].
    left. apply Rinv_0_lt_compat, lt_0_INR. simpl. lia.
  - apply sqrt_pos.
Qed.



(** The max-distance estimate of a constructed engine is non-negative as
    long as its weights are. *)
Theorem engine_max_distance_nonneg (df : table) (w : option weight_lookup) (tol : option R)
    (config : option metric_config) (e : Engine.t) :
  Engine.create df w tol config = Ok e ->
  (forall k x, In (k, x) (Engine.weights e) -> 0 <= x) ->
  0 <= Engine.max_distance e.
Proof.
  intros H Hw. destruct (create_cases df w tol config e H) as [_ [_ [_ [_ [_ [_ [_ ->]]]]]]].
  apply estimate_max_distance_nonneg, Hw.
Qed.

Lemma engine_max_distance_nonneg_witness :
  exists e, Engine.create Examples.pct_table None None None = Ok e
    /\ 0 <= Engine.max_distance e.
Proof.
  eexists. split; [reflexivity|].
  apply (engine_max_distance_nonneg Examples.pct_table None None None _ eq_refl).
  intros k x H. simpl in H. unfold METRIC_WEIGHTS in H.
  repeat (destruct H as [E|H]; [injection E as _ <-; lra|]). destruct H.
Defined.

(** ** Percentiles *)

Lemma calculate_percentile_range (e : Engine.t) (m : string) (v : value) (s : Z) (hib : bool) :
  1 <= Engine.calculate_percentile e m v s hib <= 99.
Proof.
  unfold Engine.calculate_percentile. destruct v as [x|]; [|lra].
  destruct (negb _); [lra|].
  destruct (dropna _) as [|y ys]; [lra|]. cbv zeta.
  destruct hib; minmax_cases; lra.
Qed.

Lemma dict_set_In {A} (k : string) (v : A) (l : list (string * A)) (k' : string) (v' : A) :
  In (k', v') (dict_set k v l) -> (k' = k /\ v' = v) \/ In (k', v') l.
Proof.
  induction l as [|[k0 v0] l IH]; simpl.
  - intros [E|[]]. injection E as -> ->. left. split; reflexivity.
  - destruct (String.eqb k k0) eqn:Ek.
    + intros [E|H]; [injection E as -> ->; left; split; reflexivity | right; right; exact H].
    + intros [E|H]; [right; left; exact E|].
      destruct (IH H) as [E|E]; [left; exact E | right; right; exact E].
Qed.

Lemma min_max_range (x : R) : 1 <= Rmin 99 (Rmax 1 x) <= 99.
Proof. split; [apply Rmin_glb; [lra | apply Rmax_l] | apply Rmin_l]. Qed.

Lemma add_percentiles_range (e : Engine.t) (res : Engine.result_record) (k : string) (p : R) :
  In (k, p) (Engine.res_percentiles (Engine.add_percentiles e res)) -> 1 <= p <= 99.
Proof.
  set (Inv := fun acc : list (string * R) => forall k p, In (k, p) acc -> 1 <= p <= 99).
  assert (Hset : forall acc k0 p0, Inv acc -> 1 <= p0 <= 99 -> Inv (dict_set k0 p0 acc)).
  { intros acc k0 p0 Ha Hp k1 p1 H1. destruct (dict_set_In _ _ _ _ _ H1) as [[_ ->]|H];
      [exact Hp | exact (Ha _ _ H)]. }
  intro Hk. enough (Hall : Inv (Engine.res_percentiles (Engine.add_percentiles e res)))
    by exact (Hall k p Hk).
  clear k p Hk. unfold Engine.add_percentiles. cbv zeta. cbn [Engine.res_percentiles].
  assert (H1 : Inv (fold_left (fun acc m =>
             match assoc m (Engine.res_values res) with
             | Some v => dict_set (m ++ "_pct")%string
                           (Engine.calculate_percentile e m v (Engine.res_season res)
                              (negb (mem m (Engine.eng_lower_is_better e)))) acc
             | None => acc
             end) (Engine.metrics_used e) [])).
  { apply fold_left_invariant; [|intros k p []].
    intros acc m _ Ha. destruct (assoc m (Engine.res_values res)); [|exact Ha].
    apply Hset; [exact Ha | apply calculate_percentile_range]. }
  set (p1 := fold_left _ _ []) in *.
  assert (H2 : Inv (match assoc (Engine.sanity_metric e) (Engine.res_values res) with
                    | Some v => dict_set (Engine.sanity_metric e ++ "_pct")%string
                                  (Engine.calculate_percentile e (Engine.sanity_metric e) v
                                     (Engine.res_season res)
                                     (negb (mem (Engine.sanity_metric e)
                                              (Engine.eng_lower_is_better e)))) p1
                    | None => p1
                    end)).
  { destruct (assoc _ _); [apply Hset; [exact H1 | apply calculate_percentile_range] | exact H1]. }
  set (p2 := match assoc (Engine.sanity_metric e) _ with Some _ => _ | None => _ end) in *.
  destruct (Engine.is_batter e); [|exact H2].
  destruct (assoc "pulled_fb_pct"%string (Engine.res_values res)) as [[x|]|]; [| |exact H2].
  - apply Hset; [exact H2 | apply min_max_range].
  - apply Hset; [exact H2 | lra].
Qed.

(** Every percentile [find_similar] or [get_player_season] attaches to a
    result lies in [1, 99]. *)
Theorem result_percentiles_in_range (py_round : R -> nat -> R)
    (calculate_for_player_season : Z -> Z -> option R)
    (e : Engine.t) (pid s : Z) (n : nat) (excl : bool) :
  (forall recs rec k p,
     Engine.find_similar py_round calculate_for_player_season e pid s n excl = Ok recs ->
     In rec recs -> In (k, p) (Engine.res_percentiles rec) -> 1 <= p <= 99)
  /\ (forall rec k p,
        Engine.get_player_season calculate_for_player_season e pid s = Some rec ->
        In (k, p) (Engine.res_percentiles rec) -> 1 <= p <= 99).
Proof.
  split.
  - intros recs rec k p H Hin Hk. unfold Engine.find_similar in H.
    destruct (Engine.find_similar_matches e pid s n excl); [|discriminate].
    cbn [bind] in H. injection H as <-. apply in_map_iff in Hin as [sc [<- _]].
    unfold Engine.make_result in Hk. exact (add_percentiles_range _ _ _ _ Hk).
  - intros rec k p H Hk. unfold Engine.get_player_season in H.
    destruct (find _ _); [|discriminate]. injection H as <-.
    exact (add_percentiles_range _ _ _ _ Hk).
Qed.

Lemma result_percentiles_in_range_witness :
  1 <= Engine.calculate_percentile Examples.rank_engine "xwoba" (Some (3 / 10)) 2024 true <= 99.
Proof.
  apply (proj2 (result_percentiles_in_range (fun x _ => x) (fun _ _ => None)
                  Examples.rank_engine 30 2024 5 true) _ "xwoba_pct"%string _ eq_refl).
  left. reflexivity.
Defined.

Lemma count_lt_mono (xs : list R) (x y : R) :
  x <= y ->
  (List.length (filter (fun z => Rltb z x) xs) <= List.length (filter (fun z => Rltb z y) xs))%nat.
Proof.
  intro Hxy. induction xs as [|z xs IH]; simpl; [lia|].
  destruct (Rltb z x) eqn:Ex; destruct (Rltb z y) eqn:Ey; simpl; try lia.
  unfold Rltb in Ex, Ey. destruct (Rlt_dec z x); destruct (Rlt_dec z y);
    try discriminate. lra.
Qed.

Lemma clamp_mono (p q : R) : p <= q -> Rmax 1 (Rmin 99 p) <= Rmax 1 (Rmin 99 q).
Proof. intro H. minmax_cases; lra. Qed.

(** A percentile never decreases as the value grows when higher is better,
    and never increases when lower is better. *)
Theorem percentile_monotone (e : Engine.t) (m : string) (s : Z) (x y : R) :
  x <= y ->
  Engine.calculate_percentile e m (Some x) s true <= Engine.calculate_percentile e m (Some y) s true
  /\ Engine.calculate_percentile e m (Some y) s false
     <= Engine.calculate_percentile e m (Some x) s false.
Proof.
  intro Hxy. unfold Engine.calculate_percentile.
  destruct (negb _); [lra|].
  destruct (dropna _) as [|a l]; [lra|]. cbv zeta.
  set (L := INR (List.length (a :: l))).
  assert (HL : 0 < L) by (apply lt_0_INR; simpl; lia).
  assert (Hp : INR (List.length (filter (fun z => Rltb z x) (a :: l))) / L * 100
               <= INR (List.length (filter (fun z => Rltb z y) (a :: l))) / L * 100).
  { apply Rmult_le_compat_r; [lra|]. unfold Rdiv. apply Rmult_le_compat_r.
    - left. apply Rinv_0_lt_compat, HL.
    - apply le_INR, count_lt_mono, Hxy. }
  split; apply clamp_mono; lra.
Qed.

Lemma percentile_monotone_witness :
  Engine.calculate_percentile Examples.pct_engine "k_pct" (Some 1) 2024 true
  <= Engine.calculate_percentile Examples.pct_engine "k_pct" (Some 2) 2024 true
  /\ Engine.calculate_percentile Examples.pct_engine "k_pct" (Some 2) 2024 false
     <= Engine.calculate_percentile Examples.pct_engine "k_pct" (Some 1) 2024 false.
Proof. apply percentile_monotone. lra. Defined.

(** ** Results of [find_similar] and [get_player_season] *)

Lemma find_unique_key (rows : list row) (r : row) :
  NoDup (map (fun r => (mlbam_id r, season r)) rows) -> In r rows ->
  find (Engine.target_mask (mlbam_id r) (season r)) rows = Some r.
Proof.
  induction rows as [|r' rows IH]; simpl; [intros _ []|].
  intros Hnd Hin. inversion Hnd as [|? ? Hnot Hnd']; subst.
  unfold Engine.target_mask at 1.
  destruct (Z.eqb (mlbam_id r') (mlbam_id r)) eqn:E1;
  destruct (Z.eqb (season r') (season r)) eqn:E2; simpl.
  - apply Z.eqb_eq in E1, E2. destruct Hin as [<-|Hin]; [reflexivity|].
    exfalso. apply Hnot. rewrite E1, E2. apply in_map_iff. exists r. split; [reflexivity | exact Hin].
  - destruct Hin as [<-|Hin]; [rewrite Z.eqb_refl in E2; discriminate | apply IH; assumption].
  - destruct Hin as [<-|Hin]; [rewrite Z.eqb_refl in E1; discriminate | apply IH; assumption].
  - destruct Hin as [<-|Hin]; [rewrite Z.eqb_refl in E1; discriminate | apply IH; assumption].
Qed.

(** When (player id, season) identifies a row of the dataset, every result
    of [find_similar] carries the name, values and percentiles that
    [get_player_season] returns for its player and season. *)
Theorem find_similar_agrees_with_get_player_season (py_round : R -> nat -> R)
    (calculate_for_player_season : Z -> Z -> option R)
    (e : Engine.t) (pid s : Z) (n : nat) (excl : bool)
    (recs : list Engine.result_record) (rec : Engine.result_record) :
  NoDup (map (fun r => (mlbam_id r, season r)) (trows (Engine.dataset e))) ->
  Engine.find_similar py_round calculate_for_player_season e pid s n excl = Ok recs ->
  In rec recs ->
  exists rec',
    Engine.get_player_season calculate_for_player_season e
      (Engine.res_mlbam_id rec) (Engine.res_season rec) = Some rec'
    /\ Engine.res_name rec' = Engine.res_name rec
    /\ Engine.res_values rec' = Engine.res_values rec
    /\ Engine.res_percentiles rec' = Engine.res_percentiles rec.
Proof.
  intros Hnd H Hin. unfold Engine.find_similar in H.
  destruct (Engine.find_similar_matches e pid s n excl) as [rs|] eqn:Em; [|discriminate].
  cbn [bind] in H. injection H as <-. apply in_map_iff in Hin as [sc [<- Hsc]].
  destruct (find_similar_matches_row e pid s n excl rs sc Em Hsc)
    as [target [c4 [_ [_ [_ [Hr _]]]]]].
  apply sanity_filter_incl, candidate_pool_In in Hr as [Hr _].
  unfold Engine.get_player_season.
  change (Engine.res_mlbam_id (Engine.make_result py_round calculate_for_player_season e sc))
    with (mlbam_id (Engine.sc_row sc)).
  change (Engine.res_season (Engine.make_result py_round calculate_for_player_season e sc))
    with (season (Engine.sc_row sc)).
  rewrite (find_unique_key _ _ Hnd Hr).
  eexists. split; [reflexivity|]. split; [reflexivity|]. split; reflexivity.
Qed.

Lemma find_similar_agrees_with_get_player_season_witness :
  exists recs rec rec',
    Engine.find_similar (fun x _ => x) (fun _ _ => None) Examples.rank_engine 30 2024 5 true
      = Ok recs
    /\ In rec recs
    /\ Engine.get_player_season (fun _ _ => None) Examples.rank_engine
         (Engine.res_mlbam_id rec) (Engine.res_season rec) = Some rec'
    /\ Engine.res_percentiles rec' = Engine.res_percentiles rec.
Proof.
  assert (Hf : Engine.find_similar (fun x _ => x) (fun _ _ => None) Examples.rank_engine
                 30 2024 5 true
               = Ok (map (Engine.make_result (fun x _ => x) (fun _ _ => None) Examples.rank_engine)
                       [Engine.mkScored Examples.rank_cand 0 (distance_to_similarity 0 10)])).
  { unfold Engine.find_similar. rewrite rank_example_matches. reflexivity. }
  do 2 eexists. 
  destruct (find_similar_agrees_with_get_player_season (fun x _ => x) (fun _ _ => None)
              Examples.rank_engine 30 2024 5 true _
              (Engine.make_result (fun x _ => x) (fun _ _ => None) Examples.rank_engine
                 (Engine.mkScored Examples.rank_cand 0 (distance_to_similarity 0 10)))
              ltac:(repeat constructor; simpl; intuition congruence) Hf (or_introl eq_refl))
    as [rec' [Hg [_ [_ Hp]]]].
  exists rec'. split; [exact Hf|]. split; [left; reflexivity|]. split; assumption.
Defined.

(** ** The pitch engine *)

Lemma insert_desc_hd (q p : PitchEngine.pitch_record) (l : list PitchEngine.pitch_record) :
  HdRel (fun a b => (PitchEngine.p_n_pitches b <= PitchEngine.p_n_pitches a)%Z) q l ->
  (PitchEngine.p_n_pitches p <= PitchEngine.p_n_pitches q)%Z ->
  HdRel (fun a b => (PitchEngine.p_n_pitches b <= PitchEngine.p_n_pitches a)%Z) q
        (PitchEngine.insert_desc p l).
Proof.
  intros H Hpq. destruct l as [|r l]; simpl; [constructor; exact Hpq|].
  destruct (PitchEngine.p_n_pitches p <=? PitchEngine.p_n_pitches r)%Z; constructor;
    [inversion H; assumption | exact Hpq].
Qed.

Lemma insert_desc_sorted (p : PitchEngine.pitch_record) (l : list PitchEngine.pitch_record) :
  Sorted (fun a b => (PitchEngine.p_n_pitches b <= PitchEngine.p_n_pitches a)%Z) l ->
  Sorted (fun a b => (PitchEngine.p_n_pitches b <= PitchEngine.p_n_pitches a)%Z)
         (PitchEngine.insert_desc p l).
Proof.
  induction l as [|q l IH]; intro H; simpl; [repeat constructor|].
  destruct (PitchEngine.p_n_pitches p <=? PitchEngine.p_n_pitches q)%Z eqn:E.
  - inversion H as [|? ? Hl Hhd]; subst. constructor; [apply IH; exact Hl|].
    apply insert_desc_hd; [exact Hhd | apply Z.leb_le; exact E].
  - constructor; [exact H|]. constructor. apply Z.leb_gt in E. lia.
Qed.

Lemma insert_desc_perm (p : PitchEngine.pitch_record) (l : list PitchEngine.pitch_record) :
  Permutation (PitchEngine.insert_desc p l) (p :: l).
Proof.
  induction l as [|q l IH]; simpl; [reflexivity|].
  destruct (PitchEngine.p_n_pitches p <=? PitchEngine.p_n_pitches q)%Z; [|reflexivity].
  eapply perm_trans; [apply perm_skip, IH | apply perm_swap].
Qed.

Lemma sort_by_n_pitches_desc_spec (l : list PitchEngine.pitch_record) :
  Sorted (fun a b => (PitchEngine.p_n_pitches b <= PitchEngine.p_n_pitches a)%Z)
         (PitchEngine.sort_by_n_pitches_desc l)
  /\ Permutation (PitchEngine.sort_by_n_pitches_desc l) l.
Proof.
  unfold PitchEngine.sort_by_n_pitches_desc.
  assert (H : forall acc,
    Sorted (fun a b => (PitchEngine.p_n_pitches b <= PitchEngine.p_n_pitches a)%Z) acc ->
    Sorted (fun a b => (PitchEngine.p_n_pitches b <= PitchEngine.p_n_pitches a)%Z)
           (fold_left (fun acc p => PitchEngine.insert_desc p acc) l acc)
    /\ Permutation (fold_left (fun acc p => PitchEngine.insert_desc p acc) l acc) (l ++ acc)).
  { induction l as [|p l IH]; intros acc Hs; simpl; [split; [exact Hs | reflexivity]|].
    destruct (IH _ (insert_desc_sorted p acc Hs)) as [Hs' Hp].
    split; [exact Hs'|]. eapply perm_trans; [exact Hp|].
    eapply perm_trans; [apply Permutation_app_head, insert_desc_perm|].
    apply Permutation_sym, Permutation_middle. }
  destruct (H [] (Sorted_nil _)) as [Hs Hp]. rewrite app_nil_r in Hp. split; assumption.
Qed.

Lemma map_result_length {A B} (f : A -> result B) (l : list A) (l' : list B) :
  PitchEngine.map_result f l = Ok l' -> List.length l' = List.length l.
Proof.
  revert l'. induction l as [|x l IH]; intros l' H; simpl in H.
  - injection H as <-. reflexivity.
  - destruct (f x) as [y|err]; cbn [bind] in H; [|discriminate].
    destruct (PitchEngine.map_result f l) as [ys|err] eqn:E; cbn [bind] in H; [|discriminate].
    injection H as <-. simpl. f_equal. apply IH. reflexivity.
Qed.

Lemma map_result_err_In {A B} (f : A -> result B) (l : list A) (err : exn) :
  PitchEngine.map_result f l = Err err -> exists x, In x l /\ f x = Err err.
Proof.
  induction l as [|x l IH]; simpl; [discriminate|].
  destruct (f x) as [y|err'] eqn:Ex; cbn [bind].
  - destruct (PitchEngine.map_result f l) as [ys|err'] eqn:E; cbn [bind]; [discriminate|].
    intro H. injection H as <-. destruct (IH eq_refl) as [z [Hz Hf]].
    exists z. split; [right; exact Hz | exact Hf].
  - intro H. injection H as <-. exists x. split; [left; reflexivity | exact Ex].
Qed.

Lemma map_result_err_first {A B} (f : A -> result B) (l : list A) (err : exn) :
  (forall x e, In x l -> f x = Err e -> e = err) ->
  (exists x, In x l /\ f x = Err err) ->
  PitchEngine.map_result f l = Err err.
Proof.
  induction l as [|y l IH]; intros Hall [x [Hx Hf]]; [destruct Hx|]. simpl.
  destruct (f y) as [b|e] eqn:Ey; cbn [bind].
  - destruct Hx as [<-|Hx]; [rewrite Hf in Ey; discriminate|].
    rewrite IH; [reflexivity | |exists x; split; assumption].
    intros z e Hz. apply Hall. right. exact Hz.
  - rewrite (Hall y e (or_introl eq_refl) Ey). reflexivity.
Qed.

Lemma pitch_of_err (e : PitchEngine.t) (r : row) (err : exn) :
  PitchEngine.pitch_of e r = Err err ->
  err = ValueError "cannot convert float NaN to integer"
  /\ mem "n_pitches" (tcols (PitchEngine.dataset e)) = true
  /\ cell r "n_pitches" = None.
Proof.
  unfold PitchEngine.pitch_of, PitchEngine.n_pitches_of.
  destruct (mem "n_pitches" (tcols (PitchEngine.dataset e))) eqn:Em;
    [destruct (cell r "n_pitches") eqn:Ec|]; cbn [bind]; intro H; try discriminate.
  injection H as <-. split; [reflexivity | split; reflexivity].
Qed.

Lemma pitch_keep_finite_In (e : PitchEngine.t) (zs : list string) (target : row)
    (cands : list row) (sc : Engine.scored) :
  In sc (flat_map (PitchEngine.keep_finite e zs target) cands) ->
  In (Engine.sc_row sc) cands
  /\ calculate_distance (PitchEngine.weights e) target (Engine.sc_row sc) zs
     = DFin (Engine.sc_distance sc)
  /\ Engine.sc_similarity sc
     = distance_to_similarity (Engine.sc_distance sc) (PitchEngine.max_distance e).
Proof.
  rewrite in_flat_map. intros [c [Hc Hsc]]. unfold PitchEngine.keep_finite in Hsc.
  destruct (calculate_distance (PitchEngine.weights e) target c zs) eqn:Ed;
    simpl in Hsc; try contradiction.
  destruct Hsc as [<-|[]]. simpl. split; [exact Hc | split; [exact Ed | reflexivity]].
Qed.

Lemma match_pitch_type_cases (e : PitchEngine.t) (pid : Z) (n : nat) (target : row)
    (ms : list Engine.scored) :
  PitchEngine.match_pitch_type e pid n target = Some ms ->
  exists zs,
    ms = Engine.nsmallest n
           (flat_map (PitchEngine.keep_finite e zs target)
              (PitchEngine.role_match e target
                 (filter (PitchEngine.comp_candidate pid (PitchEngine.pitch_type_of target))
                         (trows (PitchEngine.dataset e))))).
Proof.
  unfold PitchEngine.match_pitch_type.
  destruct (PitchEngine.role_match e target _) as [|c cs]; [discriminate|].
  destruct (filter (fun z => mem z (tcols (PitchEngine.dataset e))) (PitchEngine.z_columns e))
    as [|z zs]; [discriminate|].
  destruct (flat_map _ (c :: cs)) as [|k ks] eqn:Ek; [discriminate|].
  intro H. injection H as <-. exists (z :: zs). rewrite Ek. reflexivity.
Qed.

Lemma role_match_In (e : PitchEngine.t) (target : row) (cands : list row) (c : row) :
  In c (PitchEngine.role_match e target cands) ->
  In c cands
  /\ (mem "is_starter" (tcols (PitchEngine.dataset e)) = true ->
      forall ts, cell target "is_starter" = Some ts -> cell c "is_starter" = Some ts).
Proof.
  unfold PitchEngine.role_match.
  destruct (mem "is_starter" (tcols (PitchEngine.dataset e)));
    [|intro H; split; [exact H | discriminate]].
  destruct (cell target "is_starter") as [ts|].
  - intro H. apply filter_In in H as [H Hp]. split; [exact H|].
    intros _ ts' E. injection E as <-.
    destruct (cell c "is_starter") as [v|]; [|discriminate].
    destruct (Req_dec_T v ts); [subst; reflexivity | discriminate].
  - intro H. split; [exact H|]. intros _ ts' E. discriminate.
Qed.

Lemma comp_candidate_true (pid : Z) (pt : option string) (c : row) :
  PitchEngine.comp_candidate pid pt c = true ->
  (exists k, PitchEngine.pitch_type_of c = Some k /\ pt = Some k)
  /\ mlbam_id c <> pid
  /\ (exists x, cell c "n_pitches" = Some x /\ MIN_COMP_PITCHES <= x)
  /\ cell c "stuff_plus" <> None.
Proof.
  unfold PitchEngine.comp_candidate. intro H.
  apply andb_prop in H as [H H4]. apply andb_prop in H as [H H3].
  apply andb_prop in H as [H1 H2].
  split.
  { unfold PitchEngine.same_pitch_type in H1.
    destruct (PitchEngine.pitch_type_of c) as [a|]; destruct pt as [b|]; try discriminate.
    apply String.eqb_eq in H1. subst. exists b. split; reflexivity. }
  split; [intro E; rewrite E, Z.eqb_refl in H2; discriminate|].
  split.
  { destruct (cell c "n_pitches") as [x|]; [|discriminate].
    exists x. split; [reflexivity | apply Rleb_true, H3]. }
  destruct (cell c "stuff_plus"); [discriminate | discriminate H4].
Qed.

Lemma dict_set_keys_In {A} (k : string) (v : A) (l : list (string * A)) (x : string) :
  In x (map fst (dict_set k v l)) -> x = k \/ In x (map fst l).
Proof.
  intro H. apply in_map_iff in H as [[k' v'] [<- H]].
  destruct (dict_set_In _ _ _ _ _ H) as [[-> _]|H']; [left; reflexivity|].
  right. apply in_map_iff. exists (k', v'). split; [reflexivity | exact H'].
Qed.

Lemma dict_set_NoDup {A} (k : string) (v : A) (l : list (string * A)) :
  NoDup (map fst l) -> NoDup (map fst (dict_set k v l)).
Proof.
  induction l as [|[k' v'] l IH]; simpl; intro H; [repeat constructor; intros []|].
  inversion H as [|? ? Hn Hnd]; subst. destruct (String.eqb k k') eqn:E; simpl.
  - apply String.eqb_eq in E. subst. constructor; assumption.
  - constructor; [|apply IH, Hnd]. intro Hin.
    destruct (dict_set_keys_In _ _ _ _ Hin) as [->|Hin'];
      [rewrite String.eqb_refl in E; discriminate | exact (Hn Hin')].
Qed.

(** The entries of [find_similar_pitch_matches]: one per pitch type, each
    the top matches of a target row of that type. *)
Lemma pitch_matches_entries (e : PitchEngine.t) (pid s : Z) (n : nat)
    (res : list (string * list Engine.scored)) :
  PitchEngine.find_similar_pitch_matches e pid s n = Ok res ->
  NoDup (map fst res)
  /\ forall k ms, In (k, ms) res ->
       exists target,
         In target (filter (Engine.target_mask pid s) (trows (PitchEngine.dataset e)))
         /\ PitchEngine.match_pitch_type e pid n target = Some ms
         /\ PitchEngine.pitch_type_key target = k.
Proof.
  unfold PitchEngine.find_similar_pitch_matches.
  destruct (filter (Engine.target_mask pid s) (trows (PitchEngine.dataset e))) as [|t0 ts].
  - intro H. injection H as <-. split; [constructor | intros k ms []].
  - destruct (negb (mem "pitch_type" _)); [discriminate|].
    destruct (negb (mem "n_pitches" _)); [discriminate|].
    destruct (negb (mem "stuff_plus" _)); [discriminate|].
    intro H. injection H as <-.
    apply (fold_left_invariant
             (fun acc target =>
                match PitchEngine.match_pitch_type e pid n target with
                | Some ms => dict_set (PitchEngine.pitch_type_key target) ms acc
                | None => acc
                end)
             (fun acc => NoDup (map fst acc)
                         /\ forall k ms, In (k, ms) acc ->
                              exists target, In target (t0 :: ts)
                                /\ PitchEngine.match_pitch_type e pid n target = Some ms
                                /\ PitchEngine.pitch_type_key target = k)
             (t0 :: ts) []).
    + intros acc target Ht [Hnd Hin].
      destruct (PitchEngine.match_pitch_type e pid n target) as [ms|] eqn:Em;
        [|split; assumption].
      split; [apply dict_set_NoDup, Hnd|]. intros k ms' Hk.
      destruct (dict_set_In _ _ _ _ _ Hk) as [[-> ->]|Hk'].
      * exists target. split; [exact Ht | split; [exact Em | reflexivity]].
      * apply Hin, Hk'.
    + split; [constructor | intros k ms []].
Qed.

Lemma pitch_example_distance :
  calculate_distance [] (Examples.pitch_row 40 (Some 200)) (Examples.pitch_row 41 (Some 200))
    ["stuff_plus_z"%string] = DFin 0.
Proof.
  unfold calculate_distance. cbn -[Rplus Rmult Rminus pow Rdiv Ropp IZR].
  destruct (Req_dec_T _ 0) as [E|_]; [lra|]. unfold np_sqrt.
  replace (0 + 1 * (0 - 0) ^ 2) with 0 by ring.
  destruct (Rlt_dec 0 0) as [L|_]; [lra|]. rewrite sqrt_0. reflexivity.
Qed.

(** In the pitch scenario, pitcher 40's four-seamer is matched with
    pitcher 41's at distance 0. *)
Lemma pitch_example_matches :
  PitchEngine.find_similar_pitch_matches Examples.pitch_pair 40 2024 1
  = Ok [("FF"%string, [Engine.mkScored (Examples.pitch_row 41 (Some 200)) 0
                          (distance_to_similarity 0 10)])].
Proof.
  assert (H1 : Rleb MIN_COMP_PITCHES 200 = true)
    by (unfold Rleb, MIN_COMP_PITCHES; destruct (Rle_dec _ _); [reflexivity | lra]).
  unfold PitchEngine.find_similar_pitch_matches.
  cbv -[Rleb calculate_distance distance_to_similarity Rplus Rmult Rminus pow Rdiv Ropp IZR].
  cbv -[Rleb Rplus Rmult Rminus pow Rdiv Ropp IZR] in H1. rewrite H1.
  cbv -[Rleb calculate_distance distance_to_similarity Rplus Rmult Rminus pow Rdiv Ropp IZR].
  pose proof pitch_example_distance as Hd.
  cbv -[calculate_distance Rplus Rmult Rminus pow Rdiv Ropp IZR] in Hd.
  rewrite Hd.
  cbv -[Rleb calculate_distance distance_to_similarity Rplus Rmult Rminus pow Rdiv Ropp IZR].
  reflexivity.
Qed.

(** [get_pitcher_pitches] returns one pitch per row of the pitcher-season,
    sorted by pitch count, highest first. *)
Theorem get_pitcher_pitches_sorted (e : PitchEngine.t) (pid s : Z)
    (ps : list PitchEngine.pitch_record) :
  PitchEngine.get_pitcher_pitches e pid s = Ok ps ->
  Sorted (fun a b => (PitchEngine.p_n_pitches b <= PitchEngine.p_n_pitches a)%Z) ps
  /\ List.length ps = List.length (filter (Engine.target_mask pid s) (trows (PitchEngine.dataset e)))
  /\ exists ps0,
       PitchEngine.map_result (PitchEngine.pitch_of e)
         (filter (Engine.target_mask pid s) (trows (PitchEngine.dataset e))) = Ok ps0
       /\ Permutation ps ps0.
Proof.
  unfold PitchEngine.get_pitcher_pitches.
  destruct (filter (Engine.target_mask pid s) (trows (PitchEngine.dataset e))) as [|r rs].
  - intro H. injection H as <-. split; [constructor|]. split; [reflexivity|].
    exists []. split; reflexivity.
  - destruct (PitchEngine.map_result (PitchEngine.pitch_of e) (r :: rs)) as [ps0|err] eqn:Em;
      cbn [bind]; [|discriminate].
    intro H. injection H as <-.
    destruct (sort_by_n_pitches_desc_spec ps0) as [Hs Hp].
    split; [exact Hs|]. split; [rewrite (Permutation_length Hp); exact (map_result_length _ _ _ Em)|].
    exists ps0. split; [reflexivity | exact Hp].
Qed.

Lemma get_pitcher_pitches_sorted_witness :
  exists ps, PitchEngine.get_pitcher_pitches Examples.pitch_pair 40 2024 = Ok ps
    /\ List.length ps = 1%nat
    /\ Sorted (fun a b => (PitchEngine.p_n_pitches b <= PitchEngine.p_n_pitches a)%Z) ps.
Proof.
  eexists. split; [reflexivity|].
  destruct (get_pitcher_pitches_sorted Examples.pitch_pair 40 2024 _ eq_refl) as [Hs [Hl _]].
  split; [exact Hl | exact Hs].
Defined.

(** [get_pitcher_pitches] fails exactly when the [n_pitches] column exists
    and a row of the pitcher-season has no value there: [int(nan)] raises
    [ValueError]. *)
Theorem get_pitcher_pitches_nan_error (e : PitchEngine.t) (pid s : Z) (err : exn) :
  PitchEngine.get_pitcher_pitches e pid s = Err err
  <-> err = ValueError "cannot convert float NaN to integer"
      /\ mem "n_pitches" (tcols (PitchEngine.dataset e)) = true
      /\ exists r, In r (trows (PitchEngine.dataset e))
                   /\ Engine.target_mask pid s r = true
                   /\ cell r "n_pitches" = None.
Proof.
  unfold PitchEngine.get_pitcher_pitches.
  assert (Hrows : forall r, In r (trows (PitchEngine.dataset e)) -> Engine.target_mask pid s r = true ->
                  In r (filter (Engine.target_mask pid s) (trows (PitchEngine.dataset e))))
    by (intros r Hr Hm; apply filter_In; split; assumption).
  destruct (filter (Engine.target_mask pid s) (trows (PitchEngine.dataset e))) as [|r0 rs] eqn:Ef.
  - split; [discriminate|]. intros [_ [_ [r [Hr [Hm _]]]]]. destruct (Hrows r Hr Hm).
  - split.
    + destruct (PitchEngine.map_result (PitchEngine.pitch_of e) (r0 :: rs)) as [ps|err'] eqn:Em;
        cbn [bind]; [discriminate|].
      intro H. injection H as <-.
      destruct (map_result_err_In _ _ _ Em) as [x [Hx Hf]].
      destruct (pitch_of_err _ _ _ Hf) as [-> [Hc Hn]].
      split; [reflexivity|]. split; [exact Hc|]. exists x.
      rewrite <- Ef in Hx. apply filter_In in Hx as [Hx Hm].
      split; [exact Hx | split; [exact Hm | exact Hn]].
    + intros [-> [Hc [r [Hr [Hm Hn]]]]].
      rewrite (map_result_err_first (PitchEngine.pitch_of e) (r0 :: rs)
                 (ValueError "cannot convert float NaN to integer")).
      * reflexivity.
      * intros x e' _ Hf. apply (pitch_of_err _ _ _ Hf).
      * exists r. split; [exact (Hrows r Hr Hm)|].
        unfold PitchEngine.pitch_of, PitchEngine.n_pitches_of. rewrite Hc, Hn. reflexivity.
Qed.

Lemma get_pitcher_pitches_nan_error_witness :
  PitchEngine.get_pitcher_pitches Examples.pitch_nan 50 2024
  = Err (ValueError "cannot convert float NaN to integer").
Proof.
  apply (get_pitcher_pitches_nan_error Examples.pitch_nan 50 2024).
  split; [reflexivity|]. split; [reflexivity|].
  exists (Examples.pitch_row 50 None). split; [left; reflexivity|]. split; reflexivity.
Defined.

(** Every match [find_similar_pitches] lists under pitch type [k] is a row
    of the dataset of another pitcher, of type [k], with at least
    [MIN_COMP_PITCHES] pitches and a Stuff+ value, matching the role flag of
    a target pitch of type [k] whenever that flag is known. *)
Theorem pitch_matches_eligible (e : PitchEngine.t) (pid s : Z) (n : nat)
    (res : list (string * list Engine.scored)) (k : string) (ms : list Engine.scored)
    (sc : Engine.scored) :
  PitchEngine.find_similar_pitch_matches e pid s n = Ok res ->
  In (k, ms) res -> In sc ms ->
  In (Engine.sc_row sc) (trows (PitchEngine.dataset e))
  /\ PitchEngine.pitch_type_of (Engine.sc_row sc) = Some k
  /\ mlbam_id (Engine.sc_row sc) <> pid
  /\ (exists x, cell (Engine.sc_row sc) "n_pitches" = Some x /\ MIN_COMP_PITCHES <= x)
  /\ cell (Engine.sc_row sc) "stuff_plus" <> None
  /\ exists target,
       In target (filter (Engine.target_mask pid s) (trows (PitchEngine.dataset e)))
       /\ PitchEngine.pitch_type_of target = Some k
       /\ (mem "is_starter" (tcols (PitchEngine.dataset e)) = true ->
           forall ts, cell target "is_starter" = Some ts ->
                      cell (Engine.sc_row sc) "is_starter" = Some ts).
Proof.
  intros H Hk Hsc.
  destruct (pitch_matches_entries e pid s n res H) as [_ Hent].
  destruct (Hent k ms Hk) as [target [Ht [Hm Hkey]]].
  destruct (match_pitch_type_cases _ _ _ _ _ Hm) as [zs ->].
  apply nsmallest_incl in Hsc.
  destruct (pitch_keep_finite_In _ _ _ _ _ Hsc) as [Hc _].
  destruct (role_match_In _ _ _ _ Hc) as [Hc' Hrole].
  apply filter_In in Hc' as [Hds Hcc].
  destruct (comp_candidate_true _ _ _ Hcc) as [[k' [Hpc Hpt]] [Hid [Hn Hs]]].
  unfold PitchEngine.pitch_type_key in Hkey. rewrite Hpt in Hkey. subst k'.
  split; [exact Hds|]. split; [exact Hpc|]. split; [exact Hid|].
  split; [exact Hn|]. split; [exact Hs|].
  exists target. split; [exact Ht|]. split; [exact Hpt | exact Hrole].
Qed.

Lemma pitch_matches_eligible_witness :
  PitchEngine.pitch_type_of (Examples.pitch_row 41 (Some 200)) = Some "FF"%string
  /\ mlbam_id (Examples.pitch_row 41 (Some 200)) <> 40%Z
  /\ exists x, cell (Examples.pitch_row 41 (Some 200)) "n_pitches" = Some x
               /\ MIN_COMP_PITCHES <= x.
Proof.
  destruct (pitch_matches_eligible Examples.pitch_pair 40 2024 1 _ "FF"%string
              [Engine.mkScored (Examples.pitch_row 41 (Some 200)) 0 (distance_to_similarity 0 10)]
              (Engine.mkScored (Examples.pitch_row 41 (Some 200)) 0 (distance_to_similarity 0 10))
              pitch_example_matches (or_introl eq_refl) (or_introl eq_refl))
    as [_ [Hpt [Hid [Hn _]]]].
  split; [exact Hpt|]. split; [exact Hid | exact Hn].
Defined.

(** [find_similar_pitches] has one entry per pitch type; each lists at most
    [top_n] matches, closest first, with non-negative distances and
    similarities in [0, 100] computed from them. *)
Theorem pitch_matches_ranked (e : PitchEngine.t) (pid s : Z) (n : nat)
    (res : list (string * list Engine.scored)) :
  PitchEngine.find_similar_pitch_matches e pid s n = Ok res ->
  NoDup (map fst res)
  /\ forall k ms, In (k, ms) res ->
       (List.length ms <= n)%nat
       /\ Sorted (fun a b => Engine.sc_distance a <= Engine.sc_distance b) ms
       /\ Forall (fun sc => 0 <= Engine.sc_distance sc
                            /\ Engine.sc_similarity sc
                               = distance_to_similarity (Engine.sc_distance sc)
                                   (PitchEngine.max_distance e)
                            /\ 0 <= Engine.sc_similarity sc <= 100) ms.
Proof.
  intro H. destruct (pitch_matches_entries e pid s n res H) as [Hnd Hent].
  split; [exact Hnd|]. intros k ms Hk.
  destruct (Hent k ms Hk) as [target [_ [Hm _]]].
  destruct (match_pitch_type_cases _ _ _ _ _ Hm) as [zs ->].
  match goal with |- context [Engine.nsmallest n ?l] => set (kept := l) end.
  destruct (nsmallest_spec n kept) as [Hlen [Hsort _]].
  split; [rewrite Hlen; apply Nat.le_min_l|]. split; [exact Hsort|].
  apply Forall_forall. intros sc Hin. apply nsmallest_incl in Hin.
  destruct (pitch_keep_finite_In _ _ _ _ _ Hin) as [_ [Hd Hs]].
  split; [apply (calculate_distance_fin_nonneg _ _ _ _ _ Hd)|].
  split; [exact Hs|]. rewrite Hs. apply distance_to_similarity_range.
Qed.

Lemma pitch_matches_ranked_witness :
  exists res, PitchEngine.find_similar_pitch_matches Examples.pitch_pair 40 2024 1 = Ok res
    /\ res <> []
    /\ NoDup (map fst res)
    /\ forall k ms, In (k, ms) res -> (List.length ms <= 1)%nat.
Proof.
  eexists. split; [apply pitch_example_matches|]. split; [discriminate|].
  destruct (pitch_matches_ranked Examples.pitch_pair 40 2024 1 _ pitch_example_matches)
    as [Hnd Hall].
  split; [exact Hnd|]. intros k ms Hk. apply (Hall k ms Hk).
Defined.

(* ------------------------------------------------------------------ *)
(** ** The pitch-type groups of [_normalize_by_pitch_type] *)

Definition slt (a b : string) : Prop := String.compare a b = Lt.

Lemma slt_trans (a b c : string) : slt a b -> slt b c -> slt a c.
Proof.
  unfold slt. intros H1 H2.
  apply OrderedTypeEx.String_as_OT.cmp_lt in H1, H2.
  apply OrderedTypeEx.String_as_OT.cmp_lt.
  exact (OrderedTypeEx.String_as_OT.lt_trans _ _ _ H1 H2).
Qed.

Lemma slt_irrefl (a : string) : ~ slt a a.
Proof.
  unfold slt. intro H. apply OrderedTypeEx.String_as_OT.cmp_lt in H.
  exact (OrderedTypeEx.String_as_OT.lt_not_eq _ _ H eq_refl).
Qed.

Lemma insert_key_In (k x : string) (l : list string) :
  In x (PitchEngine.insert_key k l) <-> k = x \/ In x l.
Proof.
  induction l as [|h tl IH]; simpl; [tauto|].
  destruct (String.compare k h) eqn:Ec; simpl.
  - apply String.compare_eq_iff in Ec. subst h. tauto.
  - tauto.
  - rewrite IH. tauto.
Qed.

Lemma insert_key_hd (k h : string) (l : list string) :
  slt h k -> HdRel slt h l -> HdRel slt h (PitchEngine.insert_key k l).
Proof.
  intros Hhk Hl. destruct l as [|y tl]; simpl; [constructor; exact Hhk|].
  inversion Hl; subst. destruct (String.compare k y); constructor; assumption.
Qed.

Lemma insert_key_sorted (k : string) (l : list string) :
  Sorted slt l -> Sorted slt (PitchEngine.insert_key k l).
Proof.
  induction l as [|h tl IH]; intro Hs; simpl; [constructor; constructor|].
  destruct (String.compare k h) eqn:Ec.
  - exact Hs.
  - constructor; [exact Hs|constructor; exact Ec].
  - inversion Hs as [|? ? Hs' Hhd]; subst.
    constructor; [apply IH; exact Hs'|].
    apply insert_key_hd; [|exact Hhd].
    unfold slt. rewrite String.compare_antisym, Ec. reflexivity.
Qed.

Lemma slt_sorted_nodup (l : list string) : Sorted slt l -> NoDup l.
Proof.
  intro Hs. apply Sorted_StronglySorted in Hs; [|intros x y z; apply slt_trans].
  induction Hs as [|a l Hs IH Hall]; constructor; [|exact IH].
  intro Hin. rewrite Forall_forall in Hall. exact (slt_irrefl a (Hall a Hin)).
Qed.

Lemma group_keys_fold (rows : list row) (acc : list string) :
  let g := fun acc r => match PitchEngine.pitch_type_of r with
                        | Some k => PitchEngine.insert_key k acc | None => acc end in
  (Sorted slt acc -> Sorted slt (fold_left g rows acc))
  /\ (forall k, In k (fold_left g rows acc)
                <-> In k acc \/ exists r, In r rows /\ PitchEngine.pitch_type_of r = Some k).
Proof.
  intro g. revert acc. induction rows as [|r rows IH]; intro acc; simpl.
  - split; [tauto|]. intro k. split; [tauto|]. intros [H|[r [[] _]]]. exact H.
  - destruct (IH (g acc r)) as [IHs IHi]. split.
    + intro Hs. apply IHs. unfold g.
      destruct (PitchEngine.pitch_type_of r); [apply insert_key_sorted|]; exact Hs.
    + intro k. rewrite IHi. unfold g.
      destruct (PitchEngine.pitch_type_of r) as [k0|] eqn:Er; [rewrite insert_key_In|];
      split.
      * intros [[->|H]|[r' [Hr' Hk]]]; [right; exists r; auto|left; exact H|].
        right; exists r'; auto.
      * intros [H|[r' [[<-|Hr'] Hk]]]; [left; right; exact H| |right; exists r'; auto].
        rewrite Er in Hk. injection Hk as ->. left; left; reflexivity.
      * intros [H|[r' [Hr' Hk]]]; [left; exact H|right; exists r'; auto].
      * intros [H|[r' [[<-|Hr'] Hk]]]; [left; exact H| |right; exists r'; auto].
        rewrite Er in Hk. discriminate.
Qed.

Lemma group_keys_nodup (df : table) : NoDup (PitchEngine.group_keys df).
Proof.
  apply slt_sorted_nodup. unfold PitchEngine.group_keys.
  apply (proj1 (group_keys_fold (trows df) [])). constructor.
Qed.

Lemma group_keys_In (df : table) (k : string) :
  In k (PitchEngine.group_keys df)
  <-> exists r, In r (trows df) /\ PitchEngine.pitch_type_of r = Some k.
Proof.
  unfold PitchEngine.group_keys. rewrite (proj2 (group_keys_fold (trows df) [])).
  simpl. tauto.
Qed.

Definition type_is (k : string) (r : row) : bool :=
  match PitchEngine.pitch_type_of r with Some k' => String.eqb k' k | None => false end.

Definition has_type (r : row) : bool :=
  match PitchEngine.pitch_type_of r with Some _ => true | None => false end.

Lemma flat_map_ext_In {A B} (f g : A -> list B) (l : list A) :
  (forall a, In a l -> f a = g a) -> flat_map f l = flat_map g l.
Proof.
  induction l as [|a l IH]; intro H; simpl; [reflexivity|].
  rewrite (H a (or_introl eq_refl)), IH; [reflexivity|].
  intros b Hb. apply H. right. exact Hb.
Qed.

Lemma flat_map_type_is_cons (keys : list string) (r : row) (l : list row) (k0 : string) :
  PitchEngine.pitch_type_of r = Some k0 -> NoDup keys -> In k0 keys ->
  Permutation (flat_map (fun k => filter (type_is k) (r :: l)) keys)
              (r :: flat_map (fun k => filter (type_is k) l) keys).
Proof.
  intros Hr. induction keys as [|k ks IH]; intros Hnd Hin; [destruct Hin|].
  inversion Hnd as [|? ? Hnotin Hnd']; subst.
  simpl. unfold type_is at 1. rewrite Hr.
  destruct (String.eqb k0 k) eqn:Ek.
  - apply String.eqb_eq in Ek. subst k. simpl. apply perm_skip.
    fold (type_is k0). rewrite (flat_map_ext_In (fun k => filter (type_is k) (r :: l))
                                  (fun k => filter (type_is k) l)); [reflexivity|].
    intros k Hk. simpl. unfold type_is at 1. rewrite Hr.
    destruct (String.eqb k0 k) eqn:E'; [|reflexivity].
    apply String.eqb_eq in E'. subst k. contradiction.
  - destruct Hin as [->|Hin]; [rewrite String.eqb_refl in Ek; discriminate|].
    fold (type_is k).
    eapply perm_trans; [apply Permutation_app_head; exact (IH Hnd' Hin)|].
    apply Permutation_sym, Permutation_middle.
Qed.

Lemma flat_map_type_is_perm (keys : list string) (l : list row) :
  NoDup keys ->
  (forall r k, In r l -> PitchEngine.pitch_type_of r = Some k -> In k keys) ->
  Permutation (flat_map (fun k => filter (type_is k) l) keys) (filter has_type l).
Proof.
  intro Hnd. induction l as [|r l IH]; intro Hk; simpl.
  - induction keys as [|k ks IHk]; simpl; [constructor|].
    inversion Hnd; subst. apply IHk; [assumption|].
    intros r k' [].
  - assert (IH' : Permutation (flat_map (fun k => filter (type_is k) l) keys) (filter has_type l)).
    { apply IH. intros r' k Hr' Hk'. apply (Hk r' k); [right; exact Hr'|exact Hk']. }
    unfold has_type at 1. destruct (PitchEngine.pitch_type_of r) as [k0|] eqn:Er.
    + fold has_type.
      eapply perm_trans;
        [apply (flat_map_type_is_cons keys r l k0 Er Hnd (Hk r k0 (or_introl eq_refl) Er))|].
      apply perm_skip. exact IH'.
    + fold has_type.
      rewrite (flat_map_ext_In (fun k => filter (type_is k) (r :: l))
                                (fun k => filter (type_is k) l)); [exact IH'|].
      intros k _. simpl. unfold type_is at 1. rewrite Er. reflexivity.
Qed.

Definition row_ids (r : row) : Z * Z * list (string * string) := (mlbam_id r, season r, strs r).

Lemma normalize_fold_err (df : table) (ms : list string) (keys : list string) (x : exn) :
  fold_left (PitchEngine.normalize_group df ms) keys (Err x) = Err x.
Proof. induction keys as [|k ks IH]; simpl; [reflexivity|exact IH]. Qed.

Lemma normalize_group_ok (df : table) (ms : list string) norms parts (k : string) :
  exists norms' out,
    PitchEngine.normalize_group df ms (Ok (norms, parts)) k = Ok (norms', (parts ++ [out])%list)
    /\ map row_ids (trows out) = map row_ids (trows (PitchEngine.group_of df k)).
Proof.
  unfold PitchEngine.normalize_group. cbn [bind].
  destruct (filter _ ms) as [|m ms'] eqn:Ea.
  - do 2 eexists. split; reflexivity.
  - unfold Normalizer.fit_transform.
    destruct (Normalizer.transform _ _ (Some (m :: ms'))) as [out|err] eqn:Et.
    + cbn [bind]. do 2 eexists. split; [reflexivity|].
      exact (proj1 (transform_frame _ _ _ _ Et)).
    + unfold Normalizer.transform, Normalizer.fit in Et. discriminate.
Qed.

Lemma normalize_fold_ok (df : table) (ms : list string) (keys : list string)
    norms0 (parts0 : list table) :
  exists norms parts,
    fold_left (PitchEngine.normalize_group df ms) keys (Ok (norms0, parts0)) = Ok (norms, parts)
    /\ map (fun p => map row_ids (trows p)) parts
       = (map (fun p => map row_ids (trows p)) parts0
          ++ map (fun k => map row_ids (trows (PitchEngine.group_of df k))) keys)%list.
Proof.
  revert norms0 parts0. induction keys as [|k ks IH]; intros norms0 parts0; cbn [fold_left map app].
  - do 2 eexists. split; [reflexivity|]. rewrite app_nil_r. reflexivity.
  - destruct (normalize_group_ok df ms norms0 parts0 k) as [n1 [out [Hg Hout]]].
    rewrite Hg. destruct (IH n1 (parts0 ++ [out])%list) as [norms [parts [Hf Hm]]].
    exists norms, parts. split; [exact Hf|]. rewrite Hm, map_app, <- app_assoc.
    simpl. rewrite Hout. reflexivity.
Qed.

Lemma map_flat_map_trows (f : row -> Z * Z * list (string * string)) (parts : list table) :
  map f (flat_map trows parts) = List.concat (map (fun p => map f (trows p)) parts).
Proof.
  induction parts as [|p ps IH]; simpl; [reflexivity|]. rewrite map_app, IH. reflexivity.
Qed.

Lemma pitch_create_cases (df : table) (e : PitchEngine.t) :
  PitchEngine.create df = Ok e ->
  In "pitch_type"%string (tcols df)
  /\ exists ms norms parts,
       fold_left (PitchEngine.normalize_group df ms) (PitchEngine.group_keys df) (Ok ([], []))
         = Ok (norms, parts)
       /\ PitchEngine.dataset e = match parts with
                                  | [] => df
                                  | p :: _ => mkTable (tcols p) (flat_map trows parts)
                                  end.
Proof.
  unfold PitchEngine.create. destruct (filter _ _) as [|m ms]; [discriminate|].
  unfold PitchEngine.normalize_by_pitch_type.
  destruct (mem "pitch_type" (tcols df)) eqn:Hm; cbn [negb]; [|discriminate].
  destruct (fold_left _ _ _) as [[norms parts]|err] eqn:Ef; cbn [bind]; [|discriminate].
  intro H. injection H as <-. split.
  - unfold mem in Hm. apply existsb_exists in Hm. destruct Hm as [c [Hc Hcs]].
    apply String.eqb_eq in Hcs. subst c. exact Hc.
  - exists (m :: ms), norms, parts. split; [exact Ef|reflexivity].
Qed.

(** [PitchSimilarityEngine.__init__] regroups its dataset by [pitch_type]:
    when no row has a pitch type the dataset is kept as given; otherwise
    the rows without one are dropped and every row with one is kept once
    (compared by ids, season and string columns). *)
Theorem pitch_dataset_rows (df : table) (e : PitchEngine.t) :
  PitchEngine.create df = Ok e ->
  ((forall r, In r (trows df) -> PitchEngine.pitch_type_of r = None) ->
   PitchEngine.dataset e = df)
  /\ ((exists r, In r (trows df) /\ PitchEngine.pitch_type_of r <> None) ->
      Permutation (map row_ids (trows (PitchEngine.dataset e)))
                  (map row_ids (filter has_type (trows df)))).
Proof.
  intro H. destruct (pitch_create_cases df e H) as [_ [ms [norms [parts [Hf Hds]]]]].
  destruct (normalize_fold_ok df ms (PitchEngine.group_keys df) [] []) as [n' [p' [Hf' Hm]]].
  rewrite Hf in Hf'. injection Hf' as <- <-. cbn [map app] in Hm.
  split.
  - intro Hnone. rewrite Hds. destruct (PitchEngine.group_keys df) as [|k ks] eqn:Hk.
    + destruct parts; [reflexivity|discriminate Hm].
    + exfalso. destruct (proj1 (group_keys_In df k)) as [r [Hr Ht]];
        [rewrite Hk; left; reflexivity|].
      rewrite (Hnone r Hr) in Ht. discriminate.
  - intros [r [Hr Ht]]. destruct (PitchEngine.pitch_type_of r) as [k|] eqn:Er; [|contradiction].
    assert (Hin : In k (PitchEngine.group_keys df)) by (apply group_keys_In; exists r; auto).
    destruct parts as [|p ps].
    { exfalso. apply (f_equal (@List.length _)) in Hm. rewrite length_map in Hm.
      destruct (PitchEngine.group_keys df); [destruct Hin|discriminate Hm]. }
    rewrite Hds. cbn [trows]. rewrite map_flat_map_trows, Hm.
    assert (E : forall l,
      List.concat (map (fun k => map row_ids (trows (PitchEngine.group_of df k))) l)
      = map row_ids (flat_map (fun k => filter (type_is k) (trows df)) l)).
    { induction l as [|a l IHl]; cbn [map List.concat flat_map]; [reflexivity|].
      rewrite map_app, IHl. reflexivity. }
    rewrite E. apply Permutation_map, flat_map_type_is_perm; [apply group_keys_nodup|].
    intros r' k' Hr' Hk'. apply group_keys_In. exists r'. auto.
Qed.

Lemma pitch_dataset_rows_witness :
  exists e, PitchEngine.create Examples.pitch_mixed = Ok e
    /\ Permutation (map row_ids (trows (PitchEngine.dataset e)))
                   [(60%Z, 2024%Z, [("pitch_type"%string, "FF"%string)])].
Proof.
  eexists. split; [reflexivity|].
  apply (proj2 (pitch_dataset_rows Examples.pitch_mixed _ eq_refl)).
  eexists. split; [simpl; left; reflexivity|]. vm_compute. discriminate.
Defined.

(** [PitchSimilarityEngine.__init__] either succeeds, or raises the
    [ValueError] when the dataset has none of the pitch comparison metrics,
    or raises [KeyError("pitch_type")] when it has one but no [pitch_type]
    column; the normalization of the groups itself never fails. *)
Theorem pitch_create_outcome (df : table) :
  (exists e, PitchEngine.create df = Ok e)
  \/ (PitchEngine.create df = Err (ValueError "Dataset missing all pitch comparison metrics")
      /\ forall m, In m PITCH_COMPARISON_METRICS -> ~ In m (tcols df))
  \/ (PitchEngine.create df = Err (KeyError "pitch_type")
      /\ (exists m, In m PITCH_COMPARISON_METRICS /\ In m (tcols df))
      /\ ~ In "pitch_type"%string (tcols df)).
Proof.
  unfold PitchEngine.create.
  destruct (filter (fun m => mem m (tcols df)) PITCH_COMPARISON_METRICS) as [|m ms] eqn:Ef.
  - right; left. split; [reflexivity|]. intros m Hm Hc.
    assert (Hin : In m (filter (fun m => mem m (tcols df)) PITCH_COMPARISON_METRICS)).
    { apply filter_In. split; [exact Hm|]. apply mem_In. exact Hc. }
    rewrite Ef in Hin. destruct Hin.
  - assert (Hm0 : In m PITCH_COMPARISON_METRICS /\ In m (tcols df)).
    { assert (Hin : In m (filter (fun m => mem m (tcols df)) PITCH_COMPARISON_METRICS))
        by (rewrite Ef; left; reflexivity).
      apply filter_In in Hin. destruct Hin as [H1 H2]. split; [exact H1|].
      apply mem_In. exact H2. }
    unfold PitchEngine.normalize_by_pitch_type.
    destruct (mem "pitch_type" (tcols df)) eqn:Hpt; cbn [negb].
    + destruct (normalize_fold_ok df (m :: ms) (PitchEngine.group_keys df) [] [])
        as [n [p [Hf _]]].
      rewrite Hf. cbn [bind]. left. eexists. reflexivity.
    + right; right. split; [reflexivity|]. split; [exists m; exact Hm0|].
      intro Hc. apply mem_In in Hc. rewrite Hc in Hpt. discriminate.
Qed.
